(** * SnapPy census tables ([snappy/database.py])

    A shallow embedding of the table layer of SnapPy's manifold database:
    the blob codec of the [triangulation] column, the single-name lookup
    [OneCensusManifold], the indexing and slicing of [ManifoldTable] and its
    [identify] / [__contains__] protocol.

    Conventions.
    - Python integers are [Z]; a [bytes] value is a [list byte]; a Python
      [float] is the rational it denotes (finite doubles only), see [fmt_f].
    - An exception is a value of [exn]; code that may raise returns a
      [result], stateful code lives in the monad [Py] over a [World] of
      manifold objects.
    - sqlite is not part of the module: a connection is the function giving
      the rows of each view in storage order.  A where clause is kept as the
      list of the conditions the module joins with [' and '], and read as
      sqlite reads the joined text, without parentheses and with [and]
      binding tighter than [or] ([eval_conds]); the double sqlite reads a
      decimal literal as is a parameter of the table ([_literal]). *)

From Stdlib Require Import ZArith QArith Lia List Bool String.
From Stdlib Require Import Strings.Byte Sorting.Sorted.
From stdpp Require Import base tactics option list strings.

Local Close Scope Q_scope.
Local Open Scope string_scope.
Local Open Scope Z_scope.

(** ** Exceptions and the error monad *)

Inductive exn :=
| IndexError (msg : string)
| KeyError (msg : string)
| ValueError (msg : string)
| RuntimeError (msg : string)
| AttributeError (msg : string)
| UnboundLocalError (msg : string)
| OtherError (cls msg : string).

Inductive result (A : Type) :=
| Ok (a : A)
| Raise (e : exn).
Arguments Ok {A} a.
Arguments Raise {A} e.

Definition bindR {A B} (c : result A) (k : A -> result B) : result B :=
  match c with
  | Ok a => k a
  | Raise e => Raise e
  end.

Notation "'let!' x := c 'in' k" := (bindR c (fun x => k))
  (at level 10, x name, c at level 100, k at level 200).

(** [except RuntimeError]: the clause of [identify] catches this class only. *)
Definition is_RuntimeError (e : exn) : bool :=
  match e with
  | RuntimeError _ => true
  | _ => false
  end.

(** ** Python values used as keys and slice bounds *)

Inductive pyval :=
| PNone
| PInt (z : Z)
| PFloat (q : Q)
| PStr (s : string)
| PObj.

(** Truth value of [if x:]. *)
Definition truthy (v : pyval) : bool :=
  match v with
  | PNone => false
  | PInt z => negb (z =? 0)
  | PFloat q => negb (Qeq_bool q 0)
  | PStr s => negb (String.eqb s "")
  | PObj => true
  end.

Definition is_int (v : pyval) : bool :=
  match v with PInt _ => true | _ => false end.

Definition is_int_or_none (v : pyval) : bool :=
  match v with PInt _ | PNone => true | _ => false end.

Definition is_float_or_none (v : pyval) : bool :=
  match v with PFloat _ | PNone => true | _ => false end.

(** ** Rows of a census view

    One record for the columns the module selects.  [row_perm] is [None] for
    a null; [row_hash] is the hash column in the hexadecimal spelling the
    hash function writes into [hash = X'...']; [row_volume] is the volume as
    a rational; [row_m], [row_l] and [row_DT] are read by the closed and the
    link tables only. *)

Record Row := {
  row_id : Z;
  row_name : string;
  row_triangulation : list byte;
  row_perm : option Z;
  row_hash : string;
  row_volume : Q;
  row_cusps : Z;
  row_tets : Z;
  row_betti : Z;
  row_m : Z;
  row_l : Z;
  row_DT : string
}.

(** A connection: the rows of each view, in storage order. *)
Definition Connection := string -> list Row.

(** ** The header byte *)

Definition USE_COBS : Z := Z.shiftl 1 7.
Definition USE_STRING : Z := Z.shiftl 1 6.
Definition CUSP_MASK : Z := 0x3f.

Definition byte_to_int (b : byte) : Z := Z.of_N (Byte.to_N b).

(** [buf[0]] *)
Definition bytes_head (buf : list byte) : result byte :=
  match buf with
  | b :: _ => Ok b
  | [] => Raise (IndexError "index out of range")
  end.

(** [buf[i:]] and [buf[i:j]] for the non-negative bounds the module uses. *)
Definition bytes_from (i : Z) (buf : list byte) : list byte :=
  drop (Z.to_nat i) buf.

Definition bytes_slice (i j : Z) (buf : list byte) : list byte :=
  take (Z.to_nat j - Z.to_nat i) (drop (Z.to_nat i) buf).

(** [range(n)] *)
Definition range (n : Z) : list Z := map Z.of_nat (seq 0 (Z.to_nat n)).

(** [[(encoded_perm >> (n<<2)) & 0xf for n in range(num)]] *)
Definition unpack_perm (encoded_perm num : Z) : list Z :=
  map (fun n => Z.land (Z.shiftr encoded_perm (Z.shiftl n 2)) 0xf) (range num).

(** [if encoded_perm:] on a nullable integer column. *)
Definition perm_given (encoded_perm : option Z) : option Z :=
  match encoded_perm with
  | Some p => if p =? 0 then None else Some p
  | None => None
  end.

(** ** [OneCensusManifold] *)

Section OneCensusManifold.
Context {Cobs : Type}.
Variable decode_matrices : list byte -> result Cobs.
Variable connection : Connection.

(** The tuple [use_string, cobs, perm, triangulation_data]. *)
Record Payload := {
  use_string : Z;
  cobs : option Cobs;
  perm : option (list Z);
  triangulation_data : list byte
}.

(** [cursor.fetchmany(2)] on
    [select triangulation, perm from <table> where name='<name>']. *)
Definition fetch_by_name (table name : string) : list Row :=
  take 2 (filter (fun r => row_name r = name) (connection table)).

(** The first table of the list with a row of that name. *)
Definition first_table_with (name : string) (tables : list string)
    : option string :=
  List.find
    (fun t => negb (length (fetch_by_name t name) =? 0)%nat)
    tables.

(** The [for table in self._tables] loop.  [rows] is the local variable of
    that name: [None] while it is unbound. *)
Fixpoint scan_tables (name : string) (tables : list string)
    (rows : option (list Row)) : result (option (list Row)) :=
  match tables with
  | [] => Ok rows
  | table :: tables' =>
      let rows := fetch_by_name table name in
      if (1 <? length rows)%nat
      then Raise (ValueError "Manifold name is ambiguous")
      else if (length rows =? 1)%nat
           then Ok (Some rows)
           else scan_tables name tables' (Some rows)
  end.

(** Lines 358-374: decoding of the row that was found. *)
Definition decode_row (row : Row) : result Payload :=
  let buf := row_triangulation row in
  let encoded_perm := row_perm row in
  let! b := bytes_head buf in
  let header := byte_to_int b in
  let use_cobs := Z.land header USE_COBS in
  let use_string := Z.land header USE_STRING in
  let num_cusps := Z.land header CUSP_MASK in
  let! r :=
    (if negb (use_string =? 0)
     then Ok (None, bytes_from 1 buf)
     else
       let triangulation_data := bytes_from (4 * num_cusps + 1) buf in
       if negb (use_cobs =? 0)
       then let! c := decode_matrices (bytes_slice 1 (4 * num_cusps + 1) buf) in
            Ok (Some c, triangulation_data)
       else Ok (None, triangulation_data)) in
  let perm :=
    match perm_given encoded_perm with
    | Some p => Some (unpack_perm p num_cusps)
    | None => None
    end in
  Ok {| use_string := use_string; cobs := fst r; perm := perm;
        triangulation_data := snd r |}.

(** [OneCensusManifold.__call__] *)
Definition OneCensusManifold_call (tables : list string) (name : string)
    : result Payload :=
  let! found := scan_tables name tables None in
  match found with
  | None =>
      Raise (UnboundLocalError
               "local variable 'rows' referenced before assignment")
  | Some [] => Raise (KeyError ("The manifold " +:+ name +:+ " was not found."))
  | Some (row :: _) => decode_row row
  end.

End OneCensusManifold.

(** ** The external Manifold capability

    [snappy.Manifold], [db_hash] and [decode_matrices] are collaborators of
    the module.  A manifold object is a mutable cell holding a state of type
    [Mfld]; a method is given by its effect on that state, and changes the
    state of the object it is called on only.  [is_isometric_to m n] is the
    call with one argument, [isometries_to m n] the call
    [m.is_isometric_to(n, True)]; [mfld_hash] is the table's hash function
    ([db_hash] unless the caller gave another); [randomize] draws from a
    generator of type [Rng].  The isometry test, [extends_to_link],
    [num_tetrahedra] and the matrix decoder may raise, with an exception of
    any class; the other methods are taken to return. *)

Inductive filling :=
| FillCusps (coeffs : list (Z * Z))
| FillPair (m l : Z).

Class Snappy := {
  Mfld : Type;
  Matrices : Type;
  Isometry : Type;
  Rng : Type;
  Manifold_empty : Mfld;
  from_string : list byte -> Mfld -> Mfld;
  from_bytes : list byte -> Mfld -> Mfld;
  set_DTcode : string -> Mfld -> Mfld;
  set_peripheral_curves_combinatorial : Mfld -> Mfld;
  set_peripheral_curves : Matrices -> Mfld -> Mfld;
  set_name : string -> Mfld -> Mfld;
  num_cusps : Mfld -> Z;
  reindex_cusps : list Z -> Mfld -> Mfld;
  dehn_fill : filling -> Mfld -> Mfld;
  copy : Mfld -> Mfld;
  is_isometric_to : Mfld -> Mfld -> result bool;
  isometries_to : Mfld -> Mfld -> result (list Isometry);
  extends_to_link : Isometry -> result bool;
  cusp_info_is_complete : Mfld -> list bool;
  Manifold_eq : Mfld -> Mfld -> bool;
  randomize : Rng -> Mfld -> Mfld * Rng;
  num_tetrahedra : Mfld -> result Z;
  mfld_hash : Mfld -> string;
  db_decode_matrices : list byte -> result Matrices
}.

(** A reference to a manifold object: its index in the store. *)
Notation ref := nat (only parsing).

(** The calls made on manifold objects, as a log.  [ev_target] is the object
    a call modifies, if any. *)
Inductive event :=
| EvEmpty (M : ref)
| EvCopy (src dst : ref)
| EvFromString (M : ref) (body : list byte)
| EvFromBytes (M : ref) (body : list byte)
| EvSetDTcode (M : ref)
| EvSetPeripheralCurves (M : ref) (encoded : option (list byte))
| EvSetName (M : ref) (name : string)
| EvReindexCusps (M : ref) (perm : list Z)
| EvDehnFill (M : ref) (f : filling)
| EvRandomize (M : ref)
| EvIsIsometricTo (M N : ref)
| EvEq (M N : ref)
| EvCuspInfo (M : ref)
| EvHash (M : ref)
| EvNumCusps (M : ref)
| EvNumTetrahedra (M : ref).

Definition ev_target (ev : event) : option ref :=
  match ev with
  | EvEmpty M | EvCopy _ M | EvFromString M _ | EvFromBytes M _
  | EvSetDTcode M | EvSetPeripheralCurves M _ | EvSetName M _
  | EvReindexCusps M _ | EvDehnFill M _ | EvRandomize M => Some M
  | _ => None
  end.

Definition is_randomize (ev : event) : bool :=
  match ev with EvRandomize _ => true | _ => false end.

Definition is_eq (ev : event) : bool :=
  match ev with EvEq _ _ => true | _ => false end.

Section Tables.
Context `{Snappy}.

(** ** The store of manifold objects *)

Record World := {
  objs : list Mfld;
  rng : Rng;
  trace : list event    (* newest first *)
}.

Definition obj (w : World) (r : ref) : Mfld :=
  default Manifold_empty (objs w !! r).

Definition Py (A : Type) : Type := World -> result A * World.

Definition ret {A} (a : A) : Py A := fun w => (Ok a, w).

Definition raise {A} (e : exn) : Py A := fun w => (Raise e, w).

Definition bind {A B} (c : Py A) (k : A -> Py B) : Py B :=
  fun w =>
    match c w with
    | (Ok a, w') => k a w'
    | (Raise e, w') => (Raise e, w')
    end.

Definition lift {A} (r : result A) : Py A := fun w => (r, w).

Definition emit (ev : event) : Py unit :=
  fun w => (Ok tt, {| objs := objs w; rng := rng w; trace := ev :: trace w |}).

(** A fresh object with state [m]. *)
Definition alloc (m : Mfld) : Py ref :=
  fun w => (Ok (length (objs w)),
            {| objs := objs w ++ [m]; rng := rng w; trace := trace w |}).

(** In-place update of the object [r]. *)
Definition update (r : ref) (f : Mfld -> Mfld) : Py unit :=
  fun w => (Ok tt, {| objs := alter f r (objs w); rng := rng w;
                      trace := trace w |}).

Definition read (r : ref) : Py Mfld := fun w => (Ok (obj w r), w).

(** [try: body except RuntimeError: handler] *)
Definition try_except_RuntimeError {A} (body handler : Py A) : Py A :=
  fun w =>
    match body w with
    | (Raise e, w') => if is_RuntimeError e then handler w' else (Raise e, w')
    | r => r
    end.

(** [try: body except: handler] *)
Definition try_except {A} (body handler : Py A) : Py A :=
  fun w =>
    match body w with
    | (Raise e, w') => handler w'
    | r => r
    end.

End Tables.

Notation "'let*' x := c 'in' k" := (bind c (fun x => k))
  (at level 10, x name, c at level 100, k at level 200).
Notation "c1 ;; c2" := (bind c1 (fun _ => c2))
  (at level 100, c2 at level 200, right associativity).

(** ** Queries *)

(** The conditions the module joins into a where clause.  All but [CSql] are
    the comparisons the module writes itself.  [CSql t ts] is a condition
    given as SQL text by the caller (the [filter] keyword): an SQL
    expression is a chain of [or]s whose operands have no [or] of their own
    outside parentheses, and [t], [ts] are those operands in the order they
    are written, so a text without a top-level [or] is [CSql t []].
    [CVolumeGe] and [CVolumeLt] hold the double sqlite compares the column
    with. *)
Inductive cond :=
| CSql (t : Row -> bool) (ts : list (Row -> bool))
| CBetti (n : Z)
| CCusps (n : Z)
| CTets (n : Z)
| CIdEq (n : Z)
| CIdGe (n : Z)
| CNameEq (s : string)
| CHashEq (h : string)
| CVolumeGe (q : Q)
| CVolumeLt (q : Q).

(** One condition standing alone. *)
Definition eval_cond (c : cond) (r : Row) : bool :=
  match c with
  | CSql t ts => t r || existsb (fun p => p r) ts
  | CBetti n => row_betti r =? n
  | CCusps n => row_cusps r =? n
  | CTets n => row_tets r =? n
  | CIdEq n => row_id r =? n
  | CIdGe n => n <=? row_id r
  | CNameEq s => String.eqb (row_name r) s
  | CHashEq h => String.eqb (row_hash r) h
  | CVolumeGe q => Qle_bool q (row_volume r)
  | CVolumeLt q => negb (Qle_bool q (row_volume r))
  end.

(** The operands of the top-level [or]s of a condition as it is written,
    each a conjunction of one factor. *)
Definition or_operands (c : cond) : list (list (Row -> bool)) :=
  match c with
  | CSql t ts => [t] :: map (fun p => [p]) ts
  | _ => [[eval_cond c]]
  end.

(** The text [a + ' and ' + b], for [a] and [b] given by the operands of
    their top-level [or]s: the module writes no parentheses and [and] binds
    tighter than [or], so the last operand of [a] and the first of [b]
    become one conjunction. *)
Fixpoint join_and (a b : list (list (Row -> bool)))
    : list (list (Row -> bool)) :=
  match a with
  | [] => b
  | x :: a' =>
      match a' with
      | [] =>
          match b with
          | [] => [x]
          | y :: b' => (x ++ y)%list :: b'
          end
      | _ => x :: join_and a' b
      end
  end.

(** Conditions joined by [' and '], as sqlite reads the text: the
    disjunction of the conjunctions between its top-level [or]s. *)
Definition sql_or (cs : list cond) : list (list (Row -> bool)) :=
  foldr (fun c acc => join_and (or_operands c) acc) [[]] cs.

Definition eval_conds (cs : list cond) (r : Row) : bool :=
  existsb (forallb (fun p => p r)) (sql_or cs).

(** No condition of the list has a top-level [or]. *)
Definition or_free (cs : list cond) : bool :=
  forallb (fun c => match c with CSql _ (_ :: _) => false | _ => true end) cs.

Fixpoint insert_by_id (r : Row) (rows : list Row) : list Row :=
  match rows with
  | [] => [r]
  | x :: rows' =>
      if row_id r <=? row_id x then r :: rows else x :: insert_by_id r rows'
  end.

(** [order by id] *)
Definition order_by_id (rows : list Row) : list Row :=
  foldr insert_by_id [] rows.

(** [select ... where <conds> [order by id] [limit n]], the conditions
    being joined by [' and '] as they are written.  A negative limit is no
    limit in sqlite. *)
Record query := {
  q_where : list cond;
  q_order_by_id : bool;
  q_limit : option Z
}.

Definition run_query (rows : list Row) (q : query) : list Row :=
  let matched := List.filter (eval_conds (q_where q)) rows in
  let ordered := if q_order_by_id q then order_by_id matched else matched in
  match q_limit q with
  | Some n => if n <? 0 then ordered else take (Z.to_nat n) ordered
  | None => ordered
  end.

(** ['%f' % x]: six decimals, nearest, ties to even. *)
Definition fmt_f (x : Q) : Q :=
  let n := Qnum x * 1000000 in
  let d := Z.pos (Qden x) in
  let fl := n / d in
  let rem := n mod d in
  let up :=
    match 2 * rem ?= d with
    | Lt => false
    | Gt => true
    | Eq => Z.odd fl
    end in
  Qmake (if up then fl + 1 else fl) 1000000.

(** [cursor.fetchmany(n)] used to discard rows: what is left on the cursor.
    The loop of the sqlite3 module stops when its counter equals [n], so a
    negative [n] drains the cursor. *)
Definition after_fetchmany (n : Z) (cursor : list Row) : list Row :=
  if n <? 0 then [] else drop (Z.to_nat n) cursor.

(** ** [ManifoldTable] *)

(** The classes of the module differ in the row factory and in [_finalize]. *)
Inductive table_kind :=
| Cusped     (* ManifoldTable and its direct subclasses *)
| Closed     (* ClosedManifoldTable *)
| HTLink.    (* HTLinkTable *)

(** [_filter] is the list of the conditions joined in [_configure]; the
    empty string is the empty list.  [_literal] belongs to the sqlite
    library behind [_connection]: the double (as a rational) it reads a
    decimal literal of a query as. *)
Record ManifoldTable := {
  kind : table_kind;
  _table : string;
  _filter : list cond;
  _connection : Connection;
  _literal : Q -> Q
}.

(** The rows [__iter__] runs over. *)
Definition table_rows (T : ManifoldTable) : list Row :=
  List.filter (eval_conds (_filter T)) (_connection T (_table T)).

(** [_get_length], computed when the table is built. *)
Definition _length (T : ManifoldTable) : Z :=
  Z.of_nat (length (table_rows T)).

Inductive index :=
| ISlice (start stop step : pyval)
| IKey (key : pyval).

(** What [identify] returns: the sibling itself, [False] or [None]. *)
Inductive outcome :=
| Match (N : ref)
| NonMember
| Inconclusive.

(** What [__getitem__] returns. *)
Inductive item :=
| Single (M : ref)
| Many (Ms : list ref).

Definition int_of (v : pyval) : Z :=
  match v with PInt z => z | _ => 0 end.

Definition float_of (v : pyval) : Q :=
  match v with PFloat q => q | _ => 0%Q end.

(** The rows a slice selects (lines 151-195), before they are turned into
    manifolds by the row factory.  The where clause of a volume slice is the
    filter and the bounds joined by [' and '], without parentheses. *)
Definition slice_rows (T : ManifoldTable) (start stop step : pyval)
    : result (list Row) :=
  let rows := _connection T (_table T) in
  if truthy step then Raise (IndexError "Slices with steps are not supported.")
  else if is_float_or_none start && is_float_or_none stop then
    let lower :=
      if truthy start
      then [CVolumeGe (_literal T (fmt_f (float_of start)))] else [] in
    let upper :=
      if truthy stop
      then [CVolumeLt (_literal T (fmt_f (float_of stop)))] else [] in
    let conditions := (_filter T ++ lower ++ upper)%list in
    Ok (run_query rows {| q_where := conditions; q_order_by_id := false;
                          q_limit := None |})
  else if is_int_or_none start && is_int_or_none stop then
    let start :=
      if truthy start && (int_of start <? 0)
      then PInt (_length T + int_of start) else start in
    let stop :=
      if truthy stop && (int_of stop <? 0)
      then PInt (_length T + int_of stop) else stop in
    match _filter T with
    | [] =>
        let start := match start with PNone => 0 | _ => int_of start end in
        let limit :=
          if truthy stop then Some (int_of stop - start) else None in
        Ok (run_query rows {| q_where := [CIdGe (start + 1)];
                              q_order_by_id := false; q_limit := limit |})
    | _ =>
        let limit := if truthy stop then Some (int_of stop) else None in
        let cursor :=
          run_query rows {| q_where := _filter T; q_order_by_id := false;
                            q_limit := limit |} in
        if truthy start
        then Ok (after_fetchmany (int_of start) cursor)
        else Ok cursor
    end
  else Raise (IndexError "Use two ints or two floats for start and stop.").

(** A bound of an ordinal slice after the negative ones are counted from
    the end. *)
Definition resolved (T : ManifoldTable) (z : Z) : Z :=
  if z <? 0 then _length T + z else z.

(** The bounds of a volume slice as sqlite gets them: written with six
    decimals and read back as doubles, and left out when the bound is absent
    or zero. *)
Definition volume_conds (T : ManifoldTable) (start stop : pyval)
    : list cond :=
  ((if truthy start
    then [CVolumeGe (_literal T (fmt_f (float_of start)))] else [])
   ++ (if truthy stop
       then [CVolumeLt (_literal T (fmt_f (float_of stop)))] else []))%list.

Section ManifoldTable.
Context `{Snappy}.

(** ** Method calls on manifold objects *)

Definition Manifold_new : Py ref :=
  let* M := alloc Manifold_empty in
  emit (EvEmpty M) ;; ret M.

Definition Manifold_copy (M : ref) : Py ref :=
  let* m := read M in
  let* M' := alloc (copy m) in
  emit (EvCopy M M') ;; ret M'.

Definition Manifold_from_string (M : ref) (body : list byte) : Py unit :=
  emit (EvFromString M body) ;; update M (from_string body).

Definition Manifold_from_bytes (M : ref) (body : list byte) : Py unit :=
  emit (EvFromBytes M body) ;; update M (from_bytes body).

Definition Manifold_set_DTcode (M : ref) (code : string) : Py unit :=
  emit (EvSetDTcode M) ;; update M (set_DTcode code).

Definition Manifold_set_peripheral_curves_combinatorial (M : ref) : Py unit :=
  emit (EvSetPeripheralCurves M None) ;;
  update M set_peripheral_curves_combinatorial.

Definition Manifold_set_peripheral_curves (M : ref) (encoded : list byte)
    (c : Matrices) : Py unit :=
  emit (EvSetPeripheralCurves M (Some encoded)) ;;
  update M (set_peripheral_curves c).

Definition Manifold_set_name (M : ref) (name : string) : Py unit :=
  emit (EvSetName M name) ;; update M (set_name name).

Definition Manifold_num_cusps (M : ref) : Py Z :=
  let* m := read M in
  emit (EvNumCusps M) ;; ret (num_cusps m).

Definition Manifold_reindex_cusps (M : ref) (perm : list Z) : Py unit :=
  emit (EvReindexCusps M perm) ;; update M (reindex_cusps perm).

Definition Manifold_dehn_fill (M : ref) (f : filling) : Py unit :=
  emit (EvDehnFill M f) ;; update M (dehn_fill f).

Definition Manifold_randomize (M : ref) : Py unit :=
  emit (EvRandomize M) ;;
  fun w =>
    let '(m, g) := randomize (rng w) (obj w M) in
    (Ok tt, {| objs := alter (fun _ => m) M (objs w); rng := g;
               trace := trace w |}).

Definition Manifold_cusp_info_is_complete (M : ref) : Py (list bool) :=
  let* m := read M in
  emit (EvCuspInfo M) ;; ret (cusp_info_is_complete m).

Definition Manifold_equal (M N : ref) : Py bool :=
  let* m := read M in
  let* n := read N in
  emit (EvEq M N) ;; ret (Manifold_eq m n).

Definition Manifold_num_tetrahedra (M : ref) : Py Z :=
  let* m := read M in
  emit (EvNumTetrahedra M) ;; lift (num_tetrahedra m).

Definition Manifold_hash (M : ref) : Py string :=
  let* m := read M in
  emit (EvHash M) ;; ret (mfld_hash m).

Fixpoint mapR {A B} (f : A -> result B) (l : list A) : result (list B) :=
  match l with
  | [] => Ok []
  | x :: l' =>
      let! y := f x in
      let! ys := mapR f l' in
      Ok (y :: ys)
  end.

(** The verdict of the isometry test of [identify] on two manifolds: the
    body of the [try] of lines 298-304 as a function of their states. *)
Definition isometry_verdict (extends : bool) (m n : Mfld) : result bool :=
  if negb extends then is_isometric_to m n
  else
    let! isoms := isometries_to m n in
    let! flags := mapR extends_to_link isoms in
    Ok (existsb (fun b => b) flags).

Definition Manifold_isometry_test (extends : bool) (M N : ref) : Py bool :=
  let* m := read M in
  let* n := read N in
  emit (EvIsIsometricTo M N) ;; lift (isometry_verdict extends m n).

(** ** The row factory *)

(** [ManifoldTable._finalize] and [ClosedManifoldTable._finalize]. *)
Definition _finalize (T : ManifoldTable) (M : ref) (row : Row) : Py unit :=
  match kind T with
  | Closed =>
      Manifold_set_name M (row_name row) ;;
      Manifold_dehn_fill M (FillPair (row_m row) (row_l row))
  | _ =>
      Manifold_set_name M (row_name row) ;;
      let* num := Manifold_num_cusps M in
      (match perm_given (row_perm row) with
       | Some encoded_perm =>
           Manifold_reindex_cusps M (unpack_perm encoded_perm num)
       | None => ret tt
       end) ;;
      Manifold_dehn_fill M (FillCusps (replicate (Z.to_nat num) (0, 0)))
  end.

(** [ManifoldTable._manifold_factory]; [HTLinkTable._manifold_factory] is
    the same with the DT code set on the empty manifold first. *)
Definition _manifold_factory (T : ManifoldTable) (row : Row) : Py ref :=
  let buf := row_triangulation row in
  let* b := lift (bytes_head buf) in
  let header := byte_to_int b in
  let use_cobs := Z.land header USE_COBS in
  let use_string := Z.land header USE_STRING in
  let num_cusps := Z.land header CUSP_MASK in
  let* M := Manifold_new in
  (match kind T with
   | HTLink => Manifold_set_DTcode M (row_DT row)
   | _ => ret tt
   end) ;;
  (if negb (use_string =? 0)
   then Manifold_from_string M (bytes_from 1 buf)
   else
     Manifold_from_bytes M (bytes_from (4 * num_cusps + 1) buf) ;;
     if negb (use_cobs =? 0)
     then
       let encoded := bytes_slice 1 (4 * num_cusps + 1) buf in
       let* cobs := lift (db_decode_matrices encoded) in
       Manifold_set_peripheral_curves_combinatorial M ;;
       Manifold_set_peripheral_curves M encoded cobs
     else ret tt) ;;
  _finalize T M row ;;
  ret M.

Fixpoint mapM {A B} (f : A -> Py B) (l : list A) : Py (list B) :=
  match l with
  | [] => ret []
  | x :: l' =>
      let* y := f x in
      let* ys := mapM f l' in
      ret (y :: ys)
  end.

(** [self._connection.execute(query)] read to the end: every selected row
    goes through the row factory. *)
Definition execute (T : ManifoldTable) (q : query) : Py (list ref) :=
  mapM (_manifold_factory T) (run_query (_connection T (_table T)) q).

(** [find(where, order_by='id', limit)]: the where clause is the text
    [where + ' and ' + self._filter], without parentheses. *)
Definition find (T : ManifoldTable) (where_ : cond) (limit : option Z)
    : Py (list ref) :=
  execute T {| q_where := where_ :: _filter T; q_order_by_id := true;
               q_limit := limit |}.

Definition siblings (T : ManifoldTable) (mfld : ref) : Py (list ref) :=
  let* h := Manifold_hash mfld in
  find T (CHashEq h) None.

(** ** [identify] *)

(** Lines 296-306.  [Some N] stands for [return N]. *)
Fixpoint isometry_loop (extends_to_link : bool) (mfld : ref)
    (sibs : list ref) : Py (option ref) :=
  match sibs with
  | [] => ret None
  | N :: sibs' =>
      let* hit :=
        try_except_RuntimeError
          (let* b := Manifold_isometry_test extends_to_link mfld N in
           ret (if b then Some N else None))
          (ret None) in
      match hit with
      | Some N => ret (Some N)
      | None => isometry_loop extends_to_link mfld sibs'
      end
  end.

(** Lines 311-313. *)
Fixpoint equal_sibling (mfld : ref) (sibs : list ref) : Py (option ref) :=
  match sibs with
  | [] => ret None
  | N :: sibs' =>
      let* b := Manifold_equal mfld N in
      if b then ret (Some N) else equal_sibling mfld sibs'
  end.

(** Lines 310-314: [for n in range(rounds)]. *)
Fixpoint randomize_rounds (rounds : nat) (mfld : ref) (sibs : list ref)
    : Py (option ref) :=
  match rounds with
  | O => ret None
  | S rounds' =>
      let* hit := equal_sibling mfld sibs in
      match hit with
      | Some N => ret (Some N)
      | None =>
          Manifold_randomize mfld ;;
          randomize_rounds rounds' mfld sibs
      end
  end.

(** [not False in mfld.cusp_info('is_complete')] *)
Definition all_complete (flags : list bool) : bool :=
  negb (existsb negb flags).

Definition identify (T : ManifoldTable) (mfld : ref)
    (extends_to_link : bool) : Py outcome :=
  let* mfld := Manifold_copy mfld in
  let* sibs := siblings T mfld in
  if (length sibs =? 0)%nat then ret NonMember
  else
    let* hit := isometry_loop extends_to_link mfld sibs in
    match hit with
    | Some N => ret (Match N)
    | None =>
        let* flags := Manifold_cusp_info_is_complete mfld in
        if all_complete flags
        then
          let* hit := randomize_rounds 100 mfld sibs in
          match hit with
          | Some N => ret (Match N)
          | None => ret Inconclusive
          end
        else ret Inconclusive
    end.

(** [M.num_tetrahedra()] on what [identify] returned. *)
Definition outcome_num_tetrahedra (M : outcome) : Py Z :=
  match M with
  | Match N => Manifold_num_tetrahedra N
  | NonMember =>
      raise (AttributeError "'bool' object has no attribute 'num_tetrahedra'")
  | Inconclusive =>
      raise (AttributeError
               "'NoneType' object has no attribute 'num_tetrahedra'")
  end.

(** [__contains__] *)
Definition contains (T : ManifoldTable) (mfld : ref) : Py bool :=
  try_except
    (let* M := identify T mfld false in
     let* n := outcome_num_tetrahedra M in
     ret (0 <? n))
    (ret false).

(** ** [__getitem__] *)

Definition getitem (T : ManifoldTable) (i : index) : Py item :=
  match i with
  | ISlice start stop step =>
      let* rows := lift (slice_rows T start stop step) in
      let* Ms := mapM (_manifold_factory T) rows in
      ret (Many Ms)
  | IKey (PInt i) =>
      let* matches := find T (CIdEq (i + 1)) None in
      match matches with
      | [M] => ret (Single M)
      | _ => raise (IndexError "Manifold index is out of bounds")
      end
  | IKey (PStr s) =>
      let* matches := find T (CNameEq s) None in
      match matches with
      | [M] => ret (Single M)
      | _ => raise (KeyError ("The manifold " +:+ s +:+ " was not found."))
      end
  | IKey _ =>
      raise (IndexError "not a valid index type for manifolds.")
  end.

End ManifoldTable.

(** ** What [identify] computes, on manifold states

    The candidate loop and the randomized comparison read the states of the
    copy and of the siblings only; these definitions give their result as a
    function of those states. *)

Section Verdicts.
Context `{Snappy}.

(** A world with more calls logged. *)
Definition log (evs : list event) (w : World) : World :=
  {| objs := objs w; rng := rng w; trace := (evs ++ trace w)%list |}.

(** The first two lines of [identify]: the copy and its siblings. *)
Definition candidates (T : ManifoldTable) (mfld : ref)
    : Py (ref * list ref) :=
  let* c := Manifold_copy mfld in
  let* sibs := siblings T c in
  ret (c, sibs).

(** The rows [siblings] selects for the hash [h]. *)
Definition hash_bucket (T : ManifoldTable) (h : string) : list Row :=
  run_query (_connection T (_table T))
    {| q_where := CHashEq h :: _filter T; q_order_by_id := true;
       q_limit := None |}.

(** The siblings with their states. *)
Definition states (w : World) (sibs : list ref) : list (ref * Mfld) :=
  map (fun N => (N, obj w N)) sibs.

(** The isometry test did not confirm [n]: it answered no, or failed with
    a [RuntimeError]. *)
Definition unconfirmed (extends : bool) (m n : Mfld) : bool :=
  match isometry_verdict extends m n with
  | Ok b => negb b
  | Raise e => is_RuntimeError e
  end.

Definition none_isometric (extends : bool) (m : Mfld)
    (cands : list (ref * Mfld)) : bool :=
  forallb (fun c => unconfirmed extends m (snd c)) cands.

(** The state and the generator after [k] randomizations. *)
Fixpoint randomized (k : nat) (m : Mfld) (g : Rng) : Mfld * Rng :=
  match k with
  | O => (m, g)
  | S k' => let '(m', g') := randomize g m in randomized k' m' g'
  end.

(** In none of the first [rounds] rounds is the representative equal to a
    sibling. *)
Definition none_equal (rounds : nat) (m : Mfld) (g : Rng)
    (cands : list (ref * Mfld)) : bool :=
  forallb
    (fun k =>
       forallb (fun c => negb (Manifold_eq (fst (randomized k m g)) (snd c)))
         cands)
    (seq 0 rounds).

Fixpoint isometry_hit (extends : bool) (m : Mfld)
    (cands : list (ref * Mfld)) : result (option ref) :=
  match cands with
  | [] => Ok None
  | (N, n) :: cands' =>
      match isometry_verdict extends m n with
      | Ok true => Ok (Some N)
      | Ok false => isometry_hit extends m cands'
      | Raise e =>
          if is_RuntimeError e then isometry_hit extends m cands'
          else Raise e
      end
  end.

Definition first_equal (m : Mfld) (cands : list (ref * Mfld)) : option ref :=
  fst <$> List.find (fun c => Manifold_eq m (snd c)) cands.

Fixpoint fallback_hit (rounds : nat) (m : Mfld) (g : Rng)
    (cands : list (ref * Mfld)) : option ref :=
  match rounds with
  | O => None
  | S rounds' =>
      match first_equal m cands with
      | Some N => Some N
      | None =>
          let '(m', g') := randomize g m in
          fallback_hit rounds' m' g' cands
      end
  end.

(** [identify] once the copy [c] and its siblings are at hand
    (lines 293-316). *)
Definition judge (extends_to_link : bool) (c : ref) (sibs : list ref)
    : Py outcome :=
  if (length sibs =? 0)%nat then ret NonMember
  else
    let* hit := isometry_loop extends_to_link c sibs in
    match hit with
    | Some N => ret (Match N)
    | None =>
        let* flags := Manifold_cusp_info_is_complete c in
        if all_complete flags
        then
          let* hit := randomize_rounds 100 c sibs in
          match hit with
          | Some N => ret (Match N)
          | None => ret Inconclusive
          end
        else ret Inconclusive
    end.

(** What [judge] returns, from the states. *)
Definition verdict (extends : bool) (m : Mfld) (g : Rng)
    (cands : list (ref * Mfld)) : result outcome :=
  if (length cands =? 0)%nat then Ok NonMember
  else
    match isometry_hit extends m cands with
    | Raise e => Raise e
    | Ok (Some N) => Ok (Match N)
    | Ok None =>
        if all_complete (cusp_info_is_complete m)
        then
          match fallback_hit 100 m g cands with
          | Some N => Ok (Match N)
          | None => Ok Inconclusive
          end
        else Ok Inconclusive
    end.

Definition randomizations (evs : list event) : nat :=
  length (List.filter is_randomize evs).

Definition comparisons (evs : list event) : nat :=
  length (List.filter is_eq evs).

(** *** How a computation may change the store

    [extends n q w w']: from [w] to [w'] the store only grew, its first [n]
    objects kept their state, every logged call that modifies an object
    modifies one of index [n] or more and, when [q] is set, no logged call
    is an equality test or a randomization.  [sound n q c Q]: from any
    store with at least [n] objects the computation [c] extends it, and a
    returned value satisfies [Q]. *)

Definition quiet (ev : event) : Prop :=
  is_eq ev = false /\ is_randomize ev = false.

Definition event_ok (n : nat) (q : bool) (ev : event) : Prop :=
  (forall r, ev_target ev = Some r -> (n <= r)%nat) /\ (q = true -> quiet ev).

Record extends (n : nat) (q : bool) (w w' : World) : Prop := {
  ext_length : (length (objs w) <= length (objs w'))%nat;
  ext_old : take n (objs w') = take n (objs w);
  ext_trace :
    exists evs, trace w' = (evs ++ trace w)%list /\ Forall (event_ok n q) evs
}.

Definition sound {A} (n : nat) (q : bool) (c : Py A) (Q : A -> Prop) : Prop :=
  forall w, (n <= length (objs w))%nat ->
    extends n q w (snd (c w)) /\ forall a, fst (c w) = Ok a -> Q a.

End Verdicts.

(** ** A small census used to run the definitions

    Manifold states are integers.  The isometry test fails at runtime on a
    state ending in 13, rejects its input on one ending in 14 and otherwise
    compares the two states; [randomize] adds 100. *)

Module Toy.

Definition body_code (body : list byte) : Z :=
  match body with
  | b :: _ => byte_to_int b
  | [] => 0
  end.

Definition faulty {A} (n : Z) (ok : A) : result A :=
  if n mod 100 =? 13 then Raise (RuntimeError "SnapPea kernel failure")
  else if n mod 100 =? 14
       then Raise (OtherError "ValueError" "Manifolds must be non-empty.")
       else Ok ok.

#[export] Instance snappy : Snappy := {|
  Mfld := Z;
  Matrices := list byte;
  Isometry := bool;
  Rng := nat;
  Manifold_empty := 0;
  from_string := fun body _ => body_code body;
  from_bytes := fun body _ => body_code body;
  set_DTcode := fun _ m => m;
  set_peripheral_curves_combinatorial := fun m => m;
  set_peripheral_curves := fun _ m => m;
  set_name := fun _ m => m;
  num_cusps := fun _ => 1;
  reindex_cusps := fun _ m => m;
  dehn_fill := fun _ m => m;
  copy := fun m => m;
  is_isometric_to := fun m n => faulty n (m =? n);
  isometries_to := fun m n => faulty n (if m =? n then [true] else []);
  extends_to_link := fun i => Ok i;
  cusp_info_is_complete := fun m => [negb (m =? 99)];
  Manifold_eq := fun m n => m =? n;
  randomize := fun g m => (m + 100, S g);
  num_tetrahedra := fun m => Ok m;
  mfld_hash := fun m => if Z.even m then "even" else "odd";
  db_decode_matrices := fun encoded => Ok encoded
|}.

Definition mkrow (id : Z) (name : string) (blob : list byte) (hash : string)
    (volume : Q) : Row :=
  {| row_id := id; row_name := name; row_triangulation := blob;
     row_perm := None; row_hash := hash; row_volume := volume;
     row_cusps := 1; row_tets := 2; row_betti := 1;
     row_m := 0; row_l := 0; row_DT := "" |}.

(** Three rows; the blob of each is a zero header and one body byte. *)
Definition rows : list Row :=
  [ mkrow 1 "a" [x00; x0d] "odd" 1%Q;
    mkrow 2 "b" [x00; x07] "odd" 2%Q;
    mkrow 3 "c" [x00; x08] "even" 3%Q ].

(** A view whose first row makes the isometry test reject its input. *)
Definition rows_faulty : list Row :=
  [ mkrow 1 "p" [x00; x0e] "even" 1%Q;
    mkrow 2 "q" [x00; x0a] "even" 2%Q ].

(** A row whose header announces one cusp and no change of basis. *)
Definition rows_cusped : list Row :=
  [ mkrow 1 "x" [x01; x0a; x0b; x0c; x0d; x05] "odd" 1%Q ].

Definition connection : Connection :=
  fun table =>
    if String.eqb table "census" then rows
    else if String.eqb table "faulty" then rows_faulty
    else if String.eqb table "cusped" then rows_cusped
    else [].

(** Every literal of the examples below is a double with at most six
    decimals; it is read as itself. *)
Definition literal (q : Q) : Q := q.

Definition census : ManifoldTable :=
  {| kind := Cusped; _table := "census"; _filter := [];
     _connection := connection; _literal := literal |}.

(** The same view restricted to one cusp (every row has one). *)
Definition census_one_cusp : ManifoldTable :=
  {| kind := Cusped; _table := "census"; _filter := [CCusps 1];
     _connection := connection; _literal := literal |}.

(** The same view restricted by the text [name='a' or name='b']. *)
Definition census_a_or_b : ManifoldTable :=
  {| kind := Cusped; _table := "census";
     _filter := [CSql (fun r => String.eqb (row_name r) "a")
                   [fun r => String.eqb (row_name r) "b"]];
     _connection := connection; _literal := literal |}.

Definition census_faulty : ManifoldTable :=
  {| kind := Cusped; _table := "faulty"; _filter := [];
     _connection := connection; _literal := literal |}.

Definition world (ms : list Z) : World :=
  {| objs := ms; rng := O; trace := [] |}.

End Toy.

(** * Further operations of [snappy/database.py] *)

(** ** Construction of a table *)

(** The keyword arguments [ManifoldTable._configure] reads.  [kw_filter] is
    a condition given as SQL text (not empty): the operands of its
    top-level [or]s, as in [CSql]. *)
Record filter_args := {
  kw_filter : option ((Row -> bool) * list (Row -> bool));
  kw_betti : option Z;
  kw_num_cusps : option Z;
  kw_cusps : option Z;
  kw_num_tets : option Z;
  kw_tets : option Z
}.

(** [if key in kwargs: conditions.append(...)] *)
Definition given {A} (arg : option A) (c : A -> cond) : list cond :=
  match arg with
  | Some a => [c a]
  | None => []
  end.

(** [ManifoldTable._configure]: the conditions, in the order they are
    joined by [' and ']. *)
Definition _configure (kwargs : filter_args) : list cond :=
  (given (kw_filter kwargs) (fun text => CSql (fst text) (snd text))
   ++ given (kw_betti kwargs) CBetti
   ++ given (kw_num_cusps kwargs) CCusps
   ++ given (kw_cusps kwargs) CCusps
   ++ given (kw_num_tets kwargs) CTets
   ++ given (kw_tets kwargs) CTets)%list.

(** The integer whose 4-bit fields, lowest first, are the entries of
    [perm]: the layout [unpack_perm] reads. *)
Fixpoint packed_perm (perm : list Z) : Z :=
  match perm with
  | [] => 0
  | p :: perm' => p + 16 * packed_perm perm'
  end.

(** The ids of a view are 1, 2, ... in storage order. *)
Definition gapless (rows : list Row) : Prop :=
  map row_id rows = map Z.of_nat (seq 1 (length rows)).


Section Iteration.
Context `{Snappy}.

(** [__iter__], read to the end. *)
Definition iterate (T : ManifoldTable) : Py (list ref) :=
  execute T {| q_where := _filter T; q_order_by_id := false;
               q_limit := None |}.

End Iteration.


(** A name that can be written between single quotes in a query as it is:
    it has no single quote of its own. *)
Definition sql_plain (s : string) : bool :=
  match String.index 0 "'" s with
  | Some _ => false
  | None => true
  end.

(** * Subsets by bit masks ([snap/utilities.py]) *)

(** ** [indexset] *)

(** The [while True] loop of [indexset], run for at most [fuel] rounds;
    [None] when the rounds are used up before the loop is left. *)
Fixpoint indexset_loop (fuel : nat) (n i : Z) (result : list Z)
    : option (list Z) :=
  match fuel with
  | O => None
  | S fuel' =>
      let mask := Z.shiftl 1 i in
      let result :=
        if negb (Z.land n mask =? 0) then (result ++ [i])%list else result in
      if n <? mask then Some result
      else indexset_loop fuel' n (i + 1) result
  end.

Definition indexset (fuel : nat) (n : Z) : option (list Z) :=
  indexset_loop fuel n 0 [].

(** The integers [i], [i+1], ..., [i+len-1]. *)
Definition Zseq (i : Z) (len : nat) : list Z :=
  map (fun j => i + Z.of_nat j) (seq 0 len).

(** The positions up to the highest one at which [n] has a 1 bit. *)
Definition set_bits (n : Z) : list Z :=
  List.filter (Z.testbit n) (range (Z.log2 n + 1)).

(** [sum(1 << i for i in l)] *)
Definition bits_value (l : list Z) : Z :=
  foldr (fun i acc => Z.shiftl 1 i + acc) 0 l.

(** ** [powerset] *)

(** [l[i]] on a list: a negative index counts from the end; [None] is the
    [IndexError]. *)
Definition list_getitem {A} (l : list A) (i : Z) : option A :=
  let j := if i <? 0 then i + Z.of_nat (length l) else i in
  if j <? 0 then None else l !! Z.to_nat j.

(** [[segment[i] for i in idx]]; [None] is the [IndexError]. *)
Fixpoint subsequence_at {A} (segment : list A) (idx : list Z)
    : option (list A) :=
  match idx with
  | [] => Some []
  | i :: idx' =>
      match list_getitem segment i with
      | None => None
      | Some a =>
          match subsequence_at segment idx' with
          | None => None
          | Some s => Some (a :: s)
          end
      end
  end.

(** The inner [while True] loop, for at most [fuel] rounds: the value of
    [n] when the loop is left, and the lists yielded so far. *)
Fixpoint powerset_while {A} (fuel : nat) (segment : list A) (n : Z)
    (yielded : list (list A)) : option (Z * list (list A)) :=
  match fuel with
  | O => None
  | S fuel' =>
      match indexset fuel' n with
      | None => None
      | Some idx =>
          match subsequence_at segment idx with
          | None => Some (n, yielded)
          | Some s => powerset_while fuel' segment (n + 1) (yielded ++ [s])%list
          end
      end
  end.

(** [for x in X] *)
Fixpoint powerset_for {A} (fuel : nat) (X segment : list A) (n : Z)
    (yielded : list (list A)) : option (list (list A)) :=
  match X with
  | [] => Some yielded
  | x :: X' =>
      let segment := (segment ++ [x])%list in
      match powerset_while fuel segment n yielded with
      | None => None
      | Some (n', yielded') => powerset_for fuel X' segment n' yielded'
      end
  end.

(** The lists [powerset(X)] yields when it is read to the end, each loop
    running for at most [fuel] rounds. *)
Definition powerset {A} (fuel : nat) (X : list A) : option (list (list A)) :=
  powerset_for fuel X [] 0 [].

(** The elements of [X] at the positions where [n] has a 1 bit, the lowest
    bit standing for the first element. *)
Fixpoint pick {A} (X : list A) (n : Z) : list A :=
  match X with
  | [] => []
  | x :: X' => ((if Z.odd n then [x] else []) ++ pick X' (Z.div2 n))%list
  end.

(** * Reasoning about the store *)

Section Framing.
Context `{Snappy}.


Lemma extends_refl n q w : extends n q w w.
Proof.
  split; [lia | reflexivity | exists []; split; [reflexivity | constructor]].
Qed.

Lemma extends_trans n q w1 w2 w3 :
  extends n q w1 w2 -> extends n q w2 w3 -> extends n q w1 w3.
Proof.
  intros [L1 O1 (evs1 & T1 & F1)] [L2 O2 (evs2 & T2 & F2)].
  split; [lia | congruence |].
  exists (evs2 ++ evs1)%list. split.
  - rewrite T2, T1. apply app_assoc.
  - apply Forall_app; auto.
Qed.

Lemma sound_weaken {A} n q (c : Py A) (Q Q' : A -> Prop) :
  sound n q c Q -> (forall a, Q a -> Q' a) -> sound n q c Q'.
Proof. intros Hc HQ w Hn. destruct (Hc w Hn). split; auto. Qed.

Lemma sound_ret {A} n q (a : A) (Q : A -> Prop) : Q a -> sound n q (ret a) Q.
Proof.
  intros HQ w _. split; [apply extends_refl |].
  simpl. intros a' [= <-]. exact HQ.
Qed.

Lemma sound_raise {A} n q e (Q : A -> Prop) : sound n q (raise e) Q.
Proof. intros w _. split; [apply extends_refl | discriminate]. Qed.

Lemma sound_lift {A} n q (r : result A) : sound n q (lift r) (fun a => r = Ok a).
Proof. intros w _. split; [apply extends_refl | auto]. Qed.

Lemma sound_read n q r : sound n q (read r) (fun _ => True).
Proof. intros w _. split; [apply extends_refl | auto]. Qed.

Lemma sound_emit n q ev :
  event_ok n q ev -> sound n q (emit ev) (fun _ => True).
Proof.
  intros Hev w _. split; [| auto]. split; simpl; [lia | reflexivity |].
  exists [ev]. split; [reflexivity | constructor; [exact Hev | constructor]].
Qed.

Lemma sound_update n q r f :
  (n <= r)%nat -> sound n q (update r f) (fun _ => True).
Proof.
  intros Hr w _. split; [| auto]. split; simpl.
  - rewrite length_alter. lia.
  - apply take_alter_ge, Hr.
  - exists []. split; [reflexivity | constructor].
Qed.

Lemma sound_alloc n q m : sound n q (alloc m) (fun r => (n <= r)%nat).
Proof.
  intros w Hn. split.
  - split; simpl.
    + rewrite length_app. lia.
    + apply take_app_le, Hn.
    + exists []. split; [reflexivity | constructor].
  - simpl. intros a [= <-]. exact Hn.
Qed.

Lemma sound_bind {A B} n q (c : Py A) (k : A -> Py B) Q Q' :
  sound n q c Q -> (forall a, Q a -> sound n q (k a) Q') ->
  sound n q (bind c k) Q'.
Proof.
  intros Hc Hk w Hn. destruct (Hc w Hn) as [E HQ].
  unfold bind. destruct (c w) as [[a | e] w1]; simpl in *.
  - assert (Hn1 : (n <= length (objs w1))%nat)
      by (pose proof (ext_length _ _ _ _ E); lia).
    destruct (Hk a (HQ a eq_refl) w1 Hn1) as [E1 HQ1].
    split; [eapply extends_trans; eauto | exact HQ1].
  - split; [exact E | discriminate].
Qed.

Lemma sound_try_except_RuntimeError {A} n q (body handler : Py A) Q :
  sound n q body Q -> sound n q handler Q ->
  sound n q (try_except_RuntimeError body handler) Q.
Proof.
  intros Hb Hh w Hn. destruct (Hb w Hn) as [E HQ].
  unfold try_except_RuntimeError.
  destruct (body w) as [[a | e] w1]; simpl in *; [split; auto |].
  destruct (is_RuntimeError e); [| split; [exact E | discriminate]].
  assert (Hn1 : (n <= length (objs w1))%nat)
    by (pose proof (ext_length _ _ _ _ E); lia).
  destruct (Hh w1 Hn1) as [E1 HQ1].
  split; [eapply extends_trans; eauto | exact HQ1].
Qed.

Lemma sound_try_except {A} n q (body handler : Py A) Q :
  sound n q body Q -> sound n q handler Q ->
  sound n q (try_except body handler) Q.
Proof.
  intros Hb Hh w Hn. destruct (Hb w Hn) as [E HQ].
  unfold try_except.
  destruct (body w) as [[a | e] w1]; simpl in *; [split; auto |].
  assert (Hn1 : (n <= length (objs w1))%nat)
    by (pose proof (ext_length _ _ _ _ E); lia).
  destruct (Hh w1 Hn1) as [E1 HQ1].
  split; [eapply extends_trans; eauto | exact HQ1].
Qed.

Lemma sound_mapM {A B} n q (f : A -> Py B) (Q : B -> Prop) l :
  (forall x, sound n q (f x) Q) -> sound n q (mapM f l) (Forall Q).
Proof.
  intros Hf. induction l as [| x l IH]; simpl.
  - apply sound_ret. constructor.
  - eapply sound_bind; [apply Hf |]. intros y Hy.
    eapply sound_bind; [apply IH |]. intros ys Hys.
    apply sound_ret. constructor; assumption.
Qed.

End Framing.

Ltac sound_emit_tac :=
  apply sound_emit; split;
  [ let r := fresh "r" in
    let Hr := fresh "Hr" in
    intros r Hr; simpl in Hr;
    first [discriminate Hr | injection Hr as <-; first [assumption | lia]]
  | first [ intros _; split; reflexivity
          | let Hq := fresh "Hq" in intros Hq; discriminate Hq ] ].

Ltac sound_prim :=
  first
    [ apply sound_read
    | sound_emit_tac
    | apply sound_update; first [assumption | lia]
    | apply sound_alloc
    | apply sound_lift
    | eapply sound_weaken; [apply sound_lift | intros ? _; exact I]
    | apply sound_raise
    | apply sound_ret; first [exact I | assumption | lia] ].

Ltac sound_seq :=
  first
    [ sound_prim
    | eapply sound_bind with (Q := fun _ => True);
      [solve [sound_seq] | intros; sound_seq]
    | eapply sound_bind; [sound_prim | intros; sound_seq] ].

Section MethodFrames.
Context `{Snappy}.
Variable n : nat.
Variable q : bool.

Lemma sound_Manifold_new : sound n q Manifold_new (fun M => (n <= M)%nat).
Proof. unfold Manifold_new. sound_seq. Qed.

Lemma sound_Manifold_copy M :
  sound n q (Manifold_copy M) (fun M' => (n <= M')%nat).
Proof. unfold Manifold_copy. sound_seq. Qed.

Lemma sound_Manifold_isometry_test extends M N :
  sound n q (Manifold_isometry_test extends M N) (fun _ => True).
Proof. unfold Manifold_isometry_test. sound_seq. Qed.

Lemma sound_Manifold_cusp_info M :
  sound n q (Manifold_cusp_info_is_complete M) (fun _ => True).
Proof. unfold Manifold_cusp_info_is_complete. sound_seq. Qed.

Lemma sound_Manifold_hash M : sound n q (Manifold_hash M) (fun _ => True).
Proof. unfold Manifold_hash. sound_seq. Qed.

Lemma sound_Manifold_num_tetrahedra M :
  sound n q (Manifold_num_tetrahedra M) (fun _ => True).
Proof. unfold Manifold_num_tetrahedra. sound_seq. Qed.

Lemma sound_finalize T M row :
  (n <= M)%nat -> sound n q (_finalize T M row) (fun _ => True).
Proof.
  intros HM. unfold _finalize, Manifold_set_name, Manifold_dehn_fill,
    Manifold_num_cusps, Manifold_reindex_cusps.
  destruct (kind T), (perm_given (row_perm row)); sound_seq.
Qed.

Lemma sound_manifold_factory T row :
  sound n q (_manifold_factory T row) (fun M => (n <= M)%nat).
Proof.
  unfold _manifold_factory.
  eapply sound_bind; [apply sound_lift | intros b _].
  eapply sound_bind; [apply sound_Manifold_new | intros M HM].
  eapply sound_bind with (Q := fun _ => True).
  { unfold Manifold_set_DTcode. destruct (kind T); sound_seq. }
  intros _ _.
  eapply sound_bind with (Q := fun _ => True).
  { unfold Manifold_from_string, Manifold_from_bytes,
      Manifold_set_peripheral_curves_combinatorial,
      Manifold_set_peripheral_curves.
    destruct (negb _); [sound_seq |].
    destruct (negb _); sound_seq. }
  intros _ _.
  eapply sound_bind; [apply sound_finalize, HM | intros _ _].
  apply sound_ret, HM.
Qed.

Lemma sound_execute T qry :
  sound n q (execute T qry) (Forall (fun M => (n <= M)%nat)).
Proof. apply sound_mapM, sound_manifold_factory. Qed.

Lemma sound_siblings T mfld :
  sound n q (siblings T mfld) (Forall (fun M => (n <= M)%nat)).
Proof.
  unfold siblings, find.
  eapply sound_bind; [apply sound_Manifold_hash | intros h _].
  apply sound_execute.
Qed.

Lemma sound_isometry_loop extends mfld sibs :
  sound n q (isometry_loop extends mfld sibs)
    (fun hit => forall N, hit = Some N -> In N sibs).
Proof.
  induction sibs as [| N sibs IH]; simpl.
  - apply sound_ret. discriminate.
  - eapply sound_bind with (Q := fun hit => forall N', hit = Some N' -> N' = N).
    + apply sound_try_except_RuntimeError.
      * eapply sound_bind; [apply sound_Manifold_isometry_test |].
        intros [] _; apply sound_ret; congruence.
      * apply sound_ret. discriminate.
    + intros [N' |] HN.
      * apply sound_ret. intros ? [= <-]. left. symmetry. auto.
      * eapply sound_weaken; [apply IH | intros; right; auto].
Qed.

End MethodFrames.

Section LoopFrames.
Context `{Snappy}.
Variable n : nat.

Lemma sound_Manifold_randomize M :
  (n <= M)%nat -> sound n false (Manifold_randomize M) (fun _ => True).
Proof.
  intros HM. unfold Manifold_randomize.
  eapply sound_bind; [sound_prim | intros _ _].
  intros w _. destruct (randomize (rng w) (obj w M)) as [m g]. simpl.
  split; [| auto]. split; simpl.
  - rewrite length_alter. lia.
  - apply take_alter_ge, HM.
  - exists []. split; [reflexivity | constructor].
Qed.

Lemma sound_Manifold_equal M N :
  sound n false (Manifold_equal M N) (fun _ => True).
Proof. unfold Manifold_equal. sound_seq. Qed.

Lemma sound_equal_sibling mfld sibs :
  sound n false (equal_sibling mfld sibs)
    (fun hit => forall N, hit = Some N -> In N sibs).
Proof.
  induction sibs as [| N sibs IH]; simpl.
  - apply sound_ret. discriminate.
  - eapply sound_bind; [apply sound_Manifold_equal |].
    intros [] _.
    + apply sound_ret. intros ? [= <-]. left. reflexivity.
    + eapply sound_weaken; [apply IH | intros; right; auto].
Qed.

Lemma sound_randomize_rounds rounds mfld sibs :
  (n <= mfld)%nat ->
  sound n false (randomize_rounds rounds mfld sibs)
    (fun hit => forall N, hit = Some N -> In N sibs).
Proof.
  intros Hm. induction rounds as [| rounds IH]; simpl.
  - apply sound_ret. discriminate.
  - eapply sound_bind; [apply sound_equal_sibling |].
    intros [N |] HN.
    + apply sound_ret. intros ? [= <-]. auto.
    + eapply sound_bind; [apply sound_Manifold_randomize, Hm | intros _ _].
      exact IH.
Qed.

Lemma sound_identify T mfld extends :
  sound n false (identify T mfld extends) (fun _ => True).
Proof.
  unfold identify.
  eapply sound_bind; [apply sound_Manifold_copy | intros M HM].
  eapply sound_bind; [apply sound_siblings | intros sibs _].
  destruct (length sibs =? 0)%nat; [sound_seq |].
  eapply sound_bind; [apply sound_isometry_loop | intros [N |] _].
  { sound_seq. }
  eapply sound_bind; [apply sound_Manifold_cusp_info | intros flags _].
  destruct (all_complete flags); [| sound_seq].
  eapply sound_bind; [apply sound_randomize_rounds, HM | intros [N |] _];
    sound_seq.
Qed.

End LoopFrames.

(** * The candidate loop and the fallback on states *)

Section Runs.
Context `{Snappy}.

Lemma obj_log evs w r : obj (log evs w) r = obj w r.
Proof. reflexivity. Qed.

Lemma log_log evs1 evs2 w : log evs2 (log evs1 w) = log (evs2 ++ evs1) w.
Proof. unfold log. simpl. by rewrite app_assoc. Qed.

Lemma states_log evs w sibs : states (log evs w) sibs = states w sibs.
Proof. reflexivity. Qed.

Lemma isometry_test_run extends M N w :
  Manifold_isometry_test extends M N w
  = (isometry_verdict extends (obj w M) (obj w N),
     log [EvIsIsometricTo M N] w).
Proof. reflexivity. Qed.

(** One turn of the candidate loop. *)
Lemma isometry_loop_cons extends c N sibs w :
  isometry_loop extends c (N :: sibs) w
  = match isometry_verdict extends (obj w c) (obj w N) with
    | Ok true => (Ok (Some N), log [EvIsIsometricTo c N] w)
    | Ok false => isometry_loop extends c sibs (log [EvIsIsometricTo c N] w)
    | Raise e =>
        if is_RuntimeError e
        then isometry_loop extends c sibs (log [EvIsIsometricTo c N] w)
        else (Raise e, log [EvIsIsometricTo c N] w)
    end.
Proof.
  simpl. unfold bind at 1. unfold try_except_RuntimeError.
  unfold bind at 1. rewrite isometry_test_run.
  destruct (isometry_verdict extends (obj w c) (obj w N)) as [[] | e];
    try reflexivity.
  destruct (is_RuntimeError e); reflexivity.
Qed.

Lemma isometry_loop_run extends c sibs w :
  exists evs,
    isometry_loop extends c sibs w
    = (isometry_hit extends (obj w c) (states w sibs), log evs w)
    /\ randomizations evs = 0%nat /\ comparisons evs = 0%nat.
Proof.
  revert w. induction sibs as [| N sibs IH]; intros w.
  - exists []. split; [| split; reflexivity].
    destruct w; reflexivity.
  - rewrite isometry_loop_cons. simpl.
    destruct (IH (log [EvIsIsometricTo c N] w)) as (evs & E & R & C).
    rewrite log_log in E.
    destruct (isometry_verdict extends (obj w c) (obj w N)) as [[] | e].
    + exists [EvIsIsometricTo c N]. split; [reflexivity | split; reflexivity].
    + exists (evs ++ [EvIsIsometricTo c N])%list. split; [exact E |].
      unfold randomizations, comparisons in *.
      rewrite !List.filter_app, !length_app. simpl. lia.
    + destruct (is_RuntimeError e).
      * exists (evs ++ [EvIsIsometricTo c N])%list. split; [exact E |].
        unfold randomizations, comparisons in *.
        rewrite !List.filter_app, !length_app. simpl. lia.
      * exists [EvIsIsometricTo c N].
        split; [reflexivity | split; reflexivity].
Qed.

End Runs.

Ltac count_events :=
  unfold randomizations, comparisons in *;
  rewrite ?List.filter_app, ?length_app; simpl; lia.

Section FallbackRuns.
Context `{Snappy}.

Lemma equal_sibling_cons c N sibs w :
  equal_sibling c (N :: sibs) w
  = if Manifold_eq (obj w c) (obj w N)
    then (Ok (Some N), log [EvEq c N] w)
    else equal_sibling c sibs (log [EvEq c N] w).
Proof.
  simpl. unfold bind at 1. unfold Manifold_equal.
  unfold bind, read, emit, ret. simpl.
  destruct (Manifold_eq (obj w c) (obj w N)); reflexivity.
Qed.

Lemma equal_sibling_run c sibs w :
  exists evs,
    equal_sibling c sibs w
    = (Ok (first_equal (obj w c) (states w sibs)), log evs w)
    /\ randomizations evs = 0%nat
    /\ (comparisons evs <= length sibs)%nat.
Proof.
  revert w. induction sibs as [| N sibs IH]; intros w.
  - exists []. split; [destruct w; reflexivity | split; count_events].
  - rewrite equal_sibling_cons. unfold first_equal. simpl.
    destruct (Manifold_eq (obj w c) (obj w N)).
    + exists [EvEq c N]. split; [reflexivity | split; count_events].
    + destruct (IH (log [EvEq c N] w)) as (evs & E & R & C).
      rewrite log_log in E.
      exists (evs ++ [EvEq c N])%list. split; [exact E |].
      split; count_events.
Qed.

Lemma randomize_run c w :
  Manifold_randomize c w
  = (Ok tt,
     {| objs := alter (fun _ => fst (randomize (rng w) (obj w c))) c (objs w);
        rng := snd (randomize (rng w) (obj w c));
        trace := EvRandomize c :: trace w |}).
Proof.
  unfold Manifold_randomize, bind, emit. simpl. unfold obj at 1. simpl.
  fold (obj w c). destruct (randomize (rng w) (obj w c)). reflexivity.
Qed.

Lemma obj_alter_eq f c (l : list Mfld) r g t :
  (c < length l)%nat ->
  obj {| objs := alter f c l; rng := g; trace := t |} c
  = f (obj {| objs := l; rng := r; trace := t |} c).
Proof.
  intros Hc. unfold obj. simpl. rewrite list_lookup_alter_eq.
  destruct (lookup_lt_is_Some_2 l c Hc) as [m ->]. reflexivity.
Qed.

Lemma states_alter f c (l : list Mfld) r g t t' sibs :
  ~ In c sibs ->
  states {| objs := alter f c l; rng := g; trace := t |} sibs
  = states {| objs := l; rng := r; trace := t' |} sibs.
Proof.
  intros Hc. unfold states. apply map_ext_in. intros N HN.
  f_equal. unfold obj. simpl. rewrite list_lookup_alter_ne; [reflexivity |].
  intros ->. contradiction.
Qed.

(** The randomized comparison computes [fallback_hit] and stays within its
    budget of calls. *)
Lemma randomize_rounds_run rounds c sibs w :
  (c < length (objs w))%nat -> ~ In c sibs ->
  exists evs w',
    randomize_rounds rounds c sibs w
    = (Ok (fallback_hit rounds (obj w c) (rng w) (states w sibs)), w')
    /\ trace w' = (evs ++ trace w)%list
    /\ (randomizations evs <= rounds)%nat
    /\ (comparisons evs <= rounds * length sibs)%nat.
Proof.
  intros Hc Hsibs. revert w Hc.
  induction rounds as [| rounds IH]; intros w Hc.
  - exists [], w. repeat split; count_events.
  - simpl. unfold bind at 1.
    destruct (equal_sibling_run c sibs w) as (evs1 & E1 & R1 & C1).
    rewrite E1.
    destruct (first_equal (obj w c) (states w sibs)) as [N |].
    + exists evs1, (log evs1 w). repeat split; count_events.
    + unfold bind at 1. rewrite randomize_run, !obj_log.
      cbn [log objs rng trace].
      set (w2 := {| objs := _; rng := _; trace := _ |}).
      assert (Hc2 : (c < length (objs w2))%nat)
        by (subst w2; simpl; rewrite length_alter; exact Hc).
      destruct (IH w2 Hc2) as (evs2 & w' & E2 & T2 & R2 & C2).
      assert (Ho : obj w2 c = fst (randomize (rng w) (obj w c))).
      { subst w2. destruct w as [l r t]. simpl in *.
        rewrite (obj_alter_eq _ c l r); [reflexivity | exact Hc]. }
      assert (Hs : states w2 sibs = states w sibs).
      { subst w2. destruct w as [l r t]. simpl.
        apply states_alter. exact Hsibs. }
      rewrite Ho, Hs in E2. simpl in E2.
      destruct (randomize (rng w) (obj w c)) as [m' g'] eqn:Er.
      simpl in E2.
      exists (evs2 ++ EvRandomize c :: evs1)%list, w'.
      split; [exact E2 |]. split.
      { rewrite T2. subst w2. simpl. rewrite <- app_assoc. reflexivity. }
      split; count_events.
Qed.

End FallbackRuns.

Section Verdict.
Context `{Snappy}.

Lemma isometry_hit_None extends m cands :
  isometry_hit extends m cands = Ok None
  <-> none_isometric extends m cands = true.
Proof.
  unfold none_isometric, unconfirmed.
  induction cands as [| [N n] cands IH]; simpl; [tauto |].
  destruct (isometry_verdict extends m n) as [[] | e]; simpl.
  - split; discriminate.
  - exact IH.
  - destruct (is_RuntimeError e); simpl; [exact IH | split; discriminate].
Qed.

Lemma isometry_hit_Some extends m cands N :
  isometry_hit extends m cands = Ok (Some N) ->
  exists n, In (N, n) cands /\ isometry_verdict extends m n = Ok true.
Proof.
  induction cands as [| [N' n] cands IH]; simpl; [discriminate |].
  destruct (isometry_verdict extends m n) as [[] | e] eqn:E.
  - intros [= <-]. exists n. auto.
  - intros Hh. destruct (IH Hh) as (n' & ? & ?). eauto.
  - destruct (is_RuntimeError e); [| discriminate].
    intros Hh. destruct (IH Hh) as (n' & ? & ?). eauto.
Qed.

Lemma isometry_hit_Raise extends m cands e :
  isometry_hit extends m cands = Raise e ->
  is_RuntimeError e = false
  /\ exists N n, In (N, n) cands /\ isometry_verdict extends m n = Raise e.
Proof.
  induction cands as [| [N' n] cands IH]; simpl; [discriminate |].
  destruct (isometry_verdict extends m n) as [[] | e'] eqn:E.
  - discriminate.
  - intros Hh. destruct (IH Hh) as (? & N & n' & ? & ?). eauto 6.
  - destruct (is_RuntimeError e') eqn:Re.
    + intros Hh. destruct (IH Hh) as (? & N & n' & ? & ?). eauto 6.
    + intros [= <-]. eauto 6.
Qed.

Lemma first_equal_None m cands :
  first_equal m cands = None
  <-> forallb (fun c => negb (Manifold_eq m (snd c))) cands = true.
Proof.
  unfold first_equal.
  induction cands as [| [N n] cands IH]; simpl; [tauto |].
  destruct (Manifold_eq m n); simpl; [split; discriminate | exact IH].
Qed.

Lemma first_equal_Some m cands N :
  first_equal m cands = Some N ->
  exists n, In (N, n) cands /\ Manifold_eq m n = true.
Proof.
  unfold first_equal.
  induction cands as [| [N' n] cands IH]; simpl; [discriminate |].
  destruct (Manifold_eq m n) eqn:E; simpl.
  - intros [= <-]. eauto.
  - intros Hh. destruct (IH Hh) as (n' & ? & ?). eauto.
Qed.

Lemma forallb_seq_shift (p : nat -> bool) start len :
  forallb p (seq (S start) len) = forallb (fun k => p (S k)) (seq start len).
Proof.
  revert start. induction len as [| len IH]; intros start; simpl;
    [reflexivity | by rewrite IH].
Qed.

Lemma none_equal_S rounds m g cands :
  none_equal (S rounds) m g cands
  = forallb (fun c => negb (Manifold_eq m (snd c))) cands
    && none_equal rounds (fst (randomize g m)) (snd (randomize g m)) cands.
Proof.
  unfold none_equal. cbn [seq forallb]. f_equal.
  rewrite forallb_seq_shift. simpl. destruct (randomize g m). reflexivity.
Qed.

Lemma fallback_hit_None rounds m g cands :
  fallback_hit rounds m g cands = None
  <-> none_equal rounds m g cands = true.
Proof.
  revert m g. induction rounds as [| rounds IH]; intros m g.
  - simpl. tauto.
  - rewrite none_equal_S, andb_true_iff, <- first_equal_None, <- IH. simpl.
    destruct (first_equal m cands); [split; [discriminate | intros [[=] _]] |].
    destruct (randomize g m). simpl. tauto.
Qed.

Lemma fallback_hit_Some rounds m g cands N :
  fallback_hit rounds m g cands = Some N ->
  exists k n, (k < rounds)%nat /\ In (N, n) cands
              /\ Manifold_eq (fst (randomized k m g)) n = true.
Proof.
  revert m g. induction rounds as [| rounds IH]; intros m g; simpl;
    [discriminate |].
  destruct (first_equal m cands) as [N' |] eqn:E.
  - intros [= ->]. destruct (first_equal_Some _ _ _ E) as (n & ? & ?).
    exists 0%nat, n. repeat split; [lia | assumption | assumption].
  - destruct (randomize g m) as [m' g'] eqn:Er. intros Hh.
    destruct (IH _ _ Hh) as (k & n & ? & ? & ?).
    exists (S k), n. repeat split; [lia | assumption |].
    simpl. rewrite Er. assumption.
Qed.

End Verdict.

Section JudgeRuns.
Context `{Snappy}.

Lemma cusp_info_run c w :
  Manifold_cusp_info_is_complete c w
  = (Ok (cusp_info_is_complete (obj w c)), log [EvCuspInfo c] w).
Proof. reflexivity. Qed.

(** [judge] computes [verdict]; it randomizes at most 100 times and compares
    at most 100 times with each sibling, and not at all unless every cusp
    of the copy is complete. *)
Lemma judge_run extends c sibs w :
  (c < length (objs w))%nat -> ~ In c sibs ->
  exists evs w',
    judge extends c sibs w
    = (verdict extends (obj w c) (rng w) (states w sibs), w')
    /\ trace w' = (evs ++ trace w)%list
    /\ (randomizations evs <= 100)%nat
    /\ (comparisons evs <= 100 * length sibs)%nat
    /\ (all_complete (cusp_info_is_complete (obj w c)) = false ->
        randomizations evs = 0%nat /\ comparisons evs = 0%nat).
Proof.
  intros Hc Hsibs. unfold judge, verdict, states. rewrite length_map.
  fold (states w sibs).
  destruct (length sibs =? 0)%nat.
  { exists [], w. repeat split; count_events. }
  unfold bind at 1.
  destruct (isometry_loop_run extends c sibs w) as (evs1 & E1 & R1 & C1).
  rewrite E1.
  destruct (isometry_hit extends (obj w c) (states w sibs)) as [[N |] | e].
  - exists evs1, (log evs1 w). repeat split; count_events.
  - unfold bind at 1. rewrite cusp_info_run, obj_log, log_log.
    destruct (all_complete (cusp_info_is_complete (obj w c))) eqn:Ec.
    + unfold bind at 1.
      destruct (randomize_rounds_run 100 c sibs
                  (log ([EvCuspInfo c] ++ evs1) w) Hc Hsibs)
        as (evs2 & w' & E2 & T2 & R2 & C2).
      rewrite E2, obj_log, states_log. cbn [log rng].
      exists (evs2 ++ [EvCuspInfo c] ++ evs1)%list.
      destruct (fallback_hit 100 (obj w c) (rng w) (states w sibs));
        (eexists; split; [reflexivity |]);
        (split; [rewrite T2; simpl; by rewrite <- app_assoc |]);
        repeat split; try discriminate; count_events.
    + exists ([EvCuspInfo c] ++ evs1)%list, (log ([EvCuspInfo c] ++ evs1) w).
      repeat split; count_events.
  - exists evs1, (log evs1 w). repeat split; count_events.
Qed.

Lemma mapM_nil {A B} (f : A -> Py B) w : mapM f [] w = (Ok [], w).
Proof. reflexivity. Qed.

Lemma mapM_length {A B} (f : A -> Py B) l w l' :
  fst (mapM f l w) = Ok l' -> length l' = length l.
Proof.
  revert w l'. induction l as [| x l IH]; intros w l'; simpl.
  - intros [= <-]. reflexivity.
  - unfold bind at 1. destruct (f x w) as [[y | e] w1]; [| discriminate].
    unfold bind at 1. destruct (mapM f l w1) as [[ys | e] w2] eqn:E;
      [| discriminate].
    intros [= <-]. simpl. f_equal. apply (IH w1). by rewrite E.
Qed.

Lemma quiet_counts n evs :
  Forall (event_ok n true) evs ->
  randomizations evs = 0%nat /\ comparisons evs = 0%nat.
Proof.
  induction 1 as [| ev evs [_ Hq] _ [IH1 IH2]]; [split; reflexivity |].
  destruct (Hq eq_refl) as [He Hr].
  unfold randomizations, comparisons in *. simpl. rewrite He, Hr. auto.
Qed.

Lemma bind_run {A B} (c : Py A) (k : A -> Py B) w :
  bind c k w
  = match c w with
    | (Ok a, w') => k a w'
    | (Raise e, w') => (Raise e, w')
    end.
Proof. reflexivity. Qed.

Lemma identify_candidates T mfld extends w :
  identify T mfld extends w
  = match candidates T mfld w with
    | (Ok (c, sibs), w1) => judge extends c sibs w1
    | (Raise e, w1) => (Raise e, w1)
    end.
Proof.
  unfold identify, candidates. rewrite !bind_run.
  destruct (Manifold_copy mfld w) as [[c | e] w0]; [| reflexivity].
  rewrite !bind_run.
  destruct (siblings T c w0) as [[sibs | e] w1]; reflexivity.
Qed.

End JudgeRuns.

Section CandidateRuns.
Context `{Snappy}.

Lemma copy_run mfld w :
  Manifold_copy mfld w
  = (Ok (length (objs w)),
     {| objs := objs w ++ [copy (obj w mfld)]; rng := rng w;
        trace := EvCopy mfld (length (objs w)) :: trace w |}).
Proof. reflexivity. Qed.

Lemma hash_run c w :
  Manifold_hash c w = (Ok (mfld_hash (obj w c)), log [EvHash c] w).
Proof. reflexivity. Qed.

Lemma obj_old n w w' r q :
  extends n q w w' -> (r < n)%nat -> obj w' r = obj w r.
Proof.
  intros E Hr. unfold obj.
  rewrite <- (lookup_take_lt (objs w') n r Hr), (ext_old _ _ _ _ E).
  by rewrite lookup_take_lt.
Qed.

(** The copy is a new object holding [copy] of the query's state; the
    siblings are made after it, one for each row of the hash bucket. *)
Lemma candidates_spec T mfld w :
  let c := length (objs w) in
  let h := mfld_hash (copy (obj w mfld)) in
  let w1 := snd (candidates T mfld w) in
  (exists evs, trace w1 = (evs ++ trace w)%list
               /\ randomizations evs = 0%nat /\ comparisons evs = 0%nat)
  /\ (hash_bucket T h = [] -> fst (candidates T mfld w) = Ok (c, []))
  /\ (forall e, fst (candidates T mfld w) = Raise e ->
        exists row, In row (hash_bucket T h))
  /\ (forall c' sibs, fst (candidates T mfld w) = Ok (c', sibs) ->
        c' = c /\ length sibs = length (hash_bucket T h)
        /\ Forall (fun N => (c < N)%nat) sibs
        /\ (c < length (objs w1))%nat
        /\ obj w1 c = copy (obj w mfld)).
Proof.
  intros c h w1. subst w1. unfold candidates.
  rewrite bind_run, copy_run. fold c.
  set (w0 := {| objs := _; rng := _; trace := _ |}).
  assert (Hobj : obj w0 c = copy (obj w mfld)).
  { unfold obj at 1. subst w0 c. simpl.
    by rewrite list_lookup_middle. }
  unfold siblings. rewrite !bind_run, hash_run, Hobj. fold h.
  unfold find. fold (hash_bucket T h). unfold execute. fold (hash_bucket T h).
  assert (Hlen : (S c <= length (objs (log [EvHash c] w0)))%nat).
  { subst w0 c. simpl. rewrite length_app. simpl. lia. }
  destruct (sound_execute (S c) true T
              {| q_where := CHashEq h :: _filter T; q_order_by_id := true;
                 q_limit := None |} _ Hlen) as [E HQ].
  unfold execute in E, HQ. fold (hash_bucket T h) in E, HQ.
  pose proof (mapM_length (_manifold_factory T) (hash_bucket T h)
                (log [EvHash c] w0)) as HL.
  destruct (mapM (_manifold_factory T) (hash_bucket T h) (log [EvHash c] w0))
    as [[sibs | e] w1] eqn:Em; simpl in *.
  - split; [| split; [| split]].
    + destruct (ext_trace _ _ _ _ E) as (evs & Tr & Hq).
      destruct (quiet_counts _ _ Hq) as [R C].
      exists (evs ++ [EvHash c; EvCopy mfld c])%list. split.
      * rewrite Tr. simpl. by rewrite <- app_assoc.
      * split; count_events.
    + intros Hb. rewrite Hb in Em. rewrite mapM_nil in Em.
      by injection Em as <- <-.
    + discriminate.
    + intros c' sibs' [= <- <-]. split; [reflexivity |].
      split; [by apply HL |]. split; [| split].
      * eapply Forall_impl; [apply HQ; reflexivity |]. simpl. intros; lia.
      * pose proof (ext_length _ _ _ _ E). simpl in *. lia.
      * rewrite (obj_old _ _ _ c _ E); [| lia]. exact Hobj.
  - split; [| split; [| split]].
    + destruct (ext_trace _ _ _ _ E) as (evs & Tr & Hq).
      destruct (quiet_counts _ _ Hq) as [R C].
      exists (evs ++ [EvHash c; EvCopy mfld c])%list. split.
      * rewrite Tr. simpl. by rewrite <- app_assoc.
      * split; count_events.
    + intros Hb. rewrite Hb in Em. rewrite mapM_nil in Em. discriminate.
    + intros e' _. destruct (hash_bucket T h) as [| row rows].
      * rewrite mapM_nil in Em. discriminate.
      * exists row. by left.
    + discriminate.
Qed.

End CandidateRuns.

Section VerdictCases.
Context `{Snappy}.

Lemma In_states w sibs N n :
  In (N, n) (states w sibs) <-> In N sibs /\ n = obj w N.
Proof.
  unfold states. rewrite in_map_iff. split.
  - intros (N' & [= <- <-] & HN). auto.
  - intros [HN ->]. eauto.
Qed.

Lemma verdict_NonMember extends m g cands :
  verdict extends m g cands = Ok NonMember <-> cands = [].
Proof.
  unfold verdict. destruct cands as [| c cands]; cbn [length Nat.eqb];
    [tauto |].
  split; [| discriminate].
  destruct (isometry_hit extends m (c :: cands)) as [[N |] | e];
    try discriminate.
  destruct (all_complete _); [| discriminate].
  destruct (fallback_hit _ _ _ _); discriminate.
Qed.

Lemma verdict_Inconclusive extends m g cands :
  cands <> [] ->
  verdict extends m g cands = Ok Inconclusive
  <-> none_isometric extends m cands = true
      /\ (all_complete (cusp_info_is_complete m) = true ->
          none_equal 100 m g cands = true).
Proof.
  intros Hc. unfold verdict.
  destruct cands as [| c cands]; [contradiction |]. cbn [length Nat.eqb].
  rewrite <- isometry_hit_None, <- fallback_hit_None.
  destruct (isometry_hit extends m (c :: cands)) as [[N |] | e].
  - split; [discriminate | intros [[=] _]].
  - destruct (all_complete _).
    + destruct (fallback_hit _ _ _ _).
      * split; [discriminate | intros [_ Hf]; discriminate (Hf eq_refl)].
      * tauto.
    + split; [intros _; split; [reflexivity | discriminate] | reflexivity].
  - split; [discriminate | intros [[=] _]].
Qed.

Lemma verdict_Match extends m g cands N :
  verdict extends m g cands = Ok (Match N) ->
  exists n, In (N, n) cands
    /\ (isometry_verdict extends m n = Ok true
        \/ exists k, (k < 100)%nat
                     /\ Manifold_eq (fst (randomized k m g)) n = true).
Proof.
  unfold verdict. destruct (length cands =? 0)%nat; [discriminate |].
  destruct (isometry_hit extends m cands) as [[N' |] | e] eqn:E.
  - intros [= ->]. destruct (isometry_hit_Some _ _ _ _ E) as (n & ? & ?).
    eauto.
  - destruct (all_complete _); [| discriminate].
    destruct (fallback_hit _ _ _ _) as [N' |] eqn:F; [| discriminate].
    intros [= ->].
    destruct (fallback_hit_Some _ _ _ _ _ F) as (k & n & ? & ? & ?). eauto 7.
  - discriminate.
Qed.

Lemma verdict_Raise extends m g cands e :
  verdict extends m g cands = Raise e ->
  is_RuntimeError e = false
  /\ exists N n, In (N, n) cands /\ isometry_verdict extends m n = Raise e.
Proof.
  unfold verdict. destruct (length cands =? 0)%nat; [discriminate |].
  destruct (isometry_hit extends m cands) as [[N' |] | e'] eqn:E.
  - discriminate.
  - destruct (all_complete _); [| discriminate].
    destruct (fallback_hit _ _ _ _); discriminate.
  - intros [= <-]. exact (isometry_hit_Raise _ _ _ _ E).
Qed.

(** [identify] is [verdict] on the copy of the query and on the siblings
    made from the hash bucket. *)
Lemma identify_verdict T mfld extends w c sibs w1 :
  candidates T mfld w = (Ok (c, sibs), w1) ->
  exists evs w',
    identify T mfld extends w
    = (verdict extends (copy (obj w mfld)) (rng w1) (states w1 sibs), w')
    /\ trace w' = (evs ++ trace w1)%list
    /\ (randomizations evs <= 100)%nat
    /\ (comparisons evs <= 100 * length sibs)%nat
    /\ (all_complete (cusp_info_is_complete (copy (obj w mfld))) = false ->
        randomizations evs = 0%nat /\ comparisons evs = 0%nat).
Proof.
  intros Hcand.
  destruct (candidates_spec T mfld w) as (_ & _ & _ & Hok).
  rewrite Hcand in Hok. simpl in Hok.
  destruct (Hok c sibs eq_refl) as (-> & _ & Hsibs & Hc & Hobj).
  rewrite identify_candidates, Hcand, <- Hobj.
  apply judge_run; [exact Hc |].
  intros Hin. rewrite List.Forall_forall in Hsibs.
  specialize (Hsibs _ Hin). lia.
Qed.

Lemma identify_raises T mfld extends w e :
  fst (identify T mfld extends w) = Raise e ->
  fst (candidates T mfld w) = Raise e
  \/ (is_RuntimeError e = false
      /\ exists n, isometry_verdict extends (copy (obj w mfld)) n = Raise e).
Proof.
  destruct (candidates T mfld w) as [[[c sibs] | e'] w1] eqn:Hcand.
  - destruct (identify_verdict T mfld extends w c sibs w1 Hcand)
      as (evs & w' & E & _).
    rewrite E. simpl. intros Hv.
    destruct (verdict_Raise _ _ _ _ _ Hv) as (Hr & N & n & _ & Hn).
    right. split; [exact Hr | exists n; exact Hn].
  - rewrite identify_candidates, Hcand. simpl. intros [= ->]. by left.
Qed.

End VerdictCases.

(** * The hash bucket *)

Lemma length_insert_by_id r rows :
  length (insert_by_id r rows) = S (length rows).
Proof.
  induction rows as [| x rows IH]; simpl; [reflexivity |].
  destruct (row_id r <=? row_id x); simpl; [reflexivity | by rewrite IH].
Qed.

Lemma length_order_by_id rows : length (order_by_id rows) = length rows.
Proof.
  induction rows as [| r rows IH]; simpl; [reflexivity |].
  by rewrite length_insert_by_id, IH.
Qed.

Lemma filter_nil_iff {A} (p : A -> bool) l :
  List.filter p l = [] <-> forall x, In x l -> p x = false.
Proof.
  induction l as [| a l IH]; simpl; [tauto |].
  destruct (p a) eqn:E.
  - split; [discriminate |]. intros Hf. specialize (Hf a (or_introl eq_refl)).
    congruence.
  - rewrite IH. split.
    + intros Hf x [<- | Hx]; auto.
    + intros Hf x Hx. apply Hf. by right.
Qed.

(** ** Joined conditions without a top-level [or] *)

Lemma sql_or_or_free cs :
  or_free cs = true ->
  sql_or cs
  = [map (fun c => match c with CSql t _ => t | _ => eval_cond c end) cs].
Proof.
  induction cs as [| c cs IH]; [reflexivity |].
  cbn [or_free forallb]. intros Hc. apply andb_true_iff in Hc as [Hc Hcs].
  cbn [sql_or foldr]. fold (sql_or cs). rewrite (IH Hcs).
  destruct c as [t [| t' ts] | | | | | | | | |]; try discriminate;
    reflexivity.
Qed.

(** Without a top-level [or], the joined conditions hold exactly when each
    of them holds. *)
Lemma eval_conds_or_free cs r :
  or_free cs = true ->
  eval_conds cs r = forallb (fun c => eval_cond c r) cs.
Proof.
  intros Hf. unfold eval_conds. rewrite (sql_or_or_free cs Hf).
  cbn [existsb]. rewrite orb_false_r.
  revert Hf. induction cs as [| c cs IH]; [reflexivity |].
  cbn [or_free forallb map]. intros Hc.
  apply andb_true_iff in Hc as [Hc Hcs].
  rewrite (IH Hcs). f_equal.
  destruct c as [t [| t' ts] | | | | | | | | |]; try discriminate;
    try reflexivity.
  simpl. by rewrite orb_false_r.
Qed.

Lemma eval_conds_cons c cs r :
  or_free (c :: cs) = true ->
  eval_conds (c :: cs) r = eval_cond c r && eval_conds cs r.
Proof.
  intros Hf. rewrite (eval_conds_or_free _ r Hf). cbn [forallb].
  cbn [or_free forallb] in Hf. apply andb_true_iff in Hf as [_ Hcs].
  by rewrite (eval_conds_or_free _ r Hcs).
Qed.



(** For a filter without a top-level [or], the bucket is empty exactly when
    no row of the table has the hash. *)
Lemma hash_bucket_nil T h :
  or_free (_filter T) = true ->
  hash_bucket T h = []
  <-> Forall (fun row => row_hash row <> h) (table_rows T).
Proof.
  intros Hfree.
  assert (Hev : forall row,
            eval_conds (CHashEq h :: _filter T) row
            = String.eqb (row_hash row) h && eval_conds (_filter T) row)
    by (intros row; by apply eval_conds_cons).
  unfold hash_bucket, run_query, table_rows. simpl.
  rewrite List.Forall_forall.
  split.
  - intros Hb row Hrow Hh. apply List.filter_In in Hrow as [Hin Hf].
    assert (Hnil : List.filter
                     (eval_conds (CHashEq h :: _filter T))
                     (_connection T (_table T)) = []).
    { apply length_zero_iff_nil. rewrite <- length_order_by_id, Hb.
      reflexivity. }
    rewrite filter_nil_iff in Hnil. specialize (Hnil row Hin).
    rewrite Hev, Hf, andb_true_r in Hnil.
    apply String.eqb_neq in Hnil. contradiction.
  - intros Hall. apply length_zero_iff_nil. rewrite length_order_by_id.
    apply length_zero_iff_nil, filter_nil_iff. intros row Hin.
    rewrite Hev.
    destruct (eval_conds (_filter T) row) eqn:Hf;
      [| apply andb_false_r].
    rewrite andb_true_r. apply String.eqb_neq, Hall.
    apply List.filter_In. auto.
Qed.

Lemma hash_bucket_row T h :
  or_free (_filter T) = true ->
  hash_bucket T h <> [] ->
  exists row, In row (table_rows T) /\ row_hash row = h.
Proof.
  intros Hfree.
  unfold hash_bucket, run_query, table_rows. simpl.
  destruct (List.filter (eval_conds (CHashEq h :: _filter T))
              (_connection T (_table T))) as [| row rows] eqn:E;
    [intros Hn; by destruct Hn |].
  intros _.
  assert (Hin : In row (List.filter (eval_conds (CHashEq h :: _filter T))
                          (_connection T (_table T))))
    by (rewrite E; by left).
  apply List.filter_In in Hin as [Hin Hp].
  rewrite (eval_conds_cons (CHashEq h) (_filter T) row Hfree) in Hp.
  apply andb_true_iff in Hp as [Hh Hf].
  exists row. split; [| by apply String.eqb_eq].
  apply List.filter_In. auto.
Qed.

(** * The outcomes of [identify] *)

(** On a table whose filter has no top-level [or]:
    [identify] returns [NonMember] (Python's [False]) exactly when no
    row of the table has the hash of the query; once same-hash siblings
    exist, it returns [Inconclusive] ([None]) exactly when the isometry test
    confirmed none of them (each answered no or failed with a
    [RuntimeError]) and, if the fallback ran, no round of it found a sibling
    equal to the randomized copy; an [Inconclusive] answer means a row with
    the hash exists; a match is one of the sibling objects made from the
    stored rows, confirmed by the isometry test or by equality; and the two
    non-matches are different values. *)
Lemma identify_outcomes `{Snappy} (T : ManifoldTable) (mfld : ref)
    (extends : bool) (w : World) :
  or_free (_filter T) = true ->
  let m := copy (obj w mfld) in
  (fst (identify T mfld extends w) = Ok NonMember
   <-> Forall (fun row => row_hash row <> mfld_hash m) (table_rows T))
  /\ (forall c sibs w1,
        candidates T mfld w = (Ok (c, sibs), w1) -> sibs <> [] ->
        (fst (identify T mfld extends w) = Ok Inconclusive
         <-> none_isometric extends m (states w1 sibs) = true
             /\ (all_complete (cusp_info_is_complete m) = true ->
                 none_equal 100 m (rng w1) (states w1 sibs) = true)))
  /\ (fst (identify T mfld extends w) = Ok Inconclusive ->
      exists row, In row (table_rows T) /\ row_hash row = mfld_hash m)
  /\ (forall N,
        fst (identify T mfld extends w) = Ok (Match N) ->
        exists c sibs w1,
          candidates T mfld w = (Ok (c, sibs), w1) /\ In N sibs
          /\ (length (objs w) < N)%nat
          /\ (isometry_verdict extends m (obj w1 N) = Ok true
              \/ exists k, (k < 100)%nat
                   /\ Manifold_eq (fst (randomized k m (rng w1))) (obj w1 N)
                      = true))
  /\ @Ok outcome NonMember <> Ok Inconclusive.
Proof.
  intros Hfree m.
  destruct (candidates_spec T mfld w) as (_ & Hnil & Hraise & Hok).
  fold m in Hnil, Hraise, Hok.
  destruct (candidates T mfld w) as [[[c sibs] | e] w1] eqn:Hcand;
    simpl in Hnil, Hraise, Hok.
  - destruct (Hok c sibs eq_refl) as (-> & Hlen & Hsibs & Hc & Hobj).
    destruct (identify_verdict T mfld extends w _ sibs w1 Hcand)
      as (evs & w' & E & _).
    fold m in E. rewrite E. simpl.
    assert (Hstates : states w1 sibs = [] <-> sibs = []).
    { unfold states. split; [apply map_eq_nil | intros ->; reflexivity]. }
    split; [| split; [| split; [| split]]].
    + split.
      * intros Hv. apply verdict_NonMember, Hstates in Hv. subst sibs.
        apply (hash_bucket_nil T _ Hfree), length_zero_iff_nil.
        by rewrite <- Hlen.
      * intros Hall. apply verdict_NonMember, Hstates.
        apply (hash_bucket_nil T _ Hfree) in Hall. rewrite Hall in Hlen.
        by apply length_zero_iff_nil.
    + intros c' sibs' w1' [= <- <- <-] Hne.
      apply verdict_Inconclusive. by rewrite Hstates.
    + intros Hv. apply (hash_bucket_row T _ Hfree). intros Hb.
      rewrite Hb in Hlen. apply length_zero_iff_nil in Hlen. subst sibs.
      simpl in Hv. discriminate.
    + intros N Hv.
      destruct (verdict_Match _ _ _ _ _ Hv) as (n & Hin & Hconf).
      apply In_states in Hin as [Hin ->].
      exists (length (objs w)), sibs, w1. repeat split; try assumption.
      rewrite List.Forall_forall in Hsibs. auto.
    + discriminate.
  - rewrite identify_candidates, Hcand. simpl.
    split; [| split; [| split; [| split]]]; try discriminate.
    split; [discriminate |].
    intros Hall. apply (hash_bucket_nil T _ Hfree) in Hall.
    discriminate (Hnil Hall).
Qed.

(** [identify_outcomes] on the small census: the query 15 has two odd
    siblings; the test fails at runtime on the first, says no on the second,
    and no randomization makes the copy equal to either. *)
Lemma identify_outcomes_witness :
  fst (identify Toy.census 0%nat false (Toy.world [15])) = Ok Inconclusive.
Proof.
  refine (proj2 (proj1 (proj2 (identify_outcomes
                                 Toy.census 0%nat false (Toy.world [15])
                                 eq_refl))
                   1%nat [2; 3]%nat
                   (snd (candidates Toy.census 0%nat (Toy.world [15])))
                   _ _) _).
  - vm_compute. reflexivity.
  - discriminate.
  - split; [vm_compute; reflexivity | intros _; vm_compute; reflexivity].
Defined.

(** C2, a filter with a top-level [or].  The table is the small census
    restricted by [name='a' or name='b']: its rows are [a] and [b], both of
    hash "odd", and the query 8 has the hash "even", so no row of the table
    has the hash of the query.  [siblings] asks for
    [hash = X'..' and name='a' or name='b'], which selects the row [b]
    whatever its hash; [identify] makes a sibling from it, tests it, and
    answers [None], not [False]. *)
Lemma identify_or_filter :
  table_rows Toy.census_a_or_b = take 2 Toy.rows
  /\ Forall (fun row => row_hash row <> @mfld_hash Toy.snappy 8%Z)
       (table_rows Toy.census_a_or_b)
  /\ hash_bucket Toy.census_a_or_b (@mfld_hash Toy.snappy 8%Z)
     = [Toy.mkrow 2 "b" [x00; x07] "odd" 2%Q]
  /\ fst (identify Toy.census_a_or_b 0%nat false (Toy.world [8]))
     = Ok Inconclusive.
Proof.
  split; [reflexivity |].
  split; [repeat constructor; discriminate |].
  split; [reflexivity |]. vm_compute. reflexivity.
Qed.

(** * The bounded fallback *)

(** C3, as amended.  Whatever the query and the table, the calls [identify]
    makes are bounded: at most 100 randomizations and at most 100
    comparisons with each sibling, none at all unless every cusp of the copy
    is complete; the call returns a match among the siblings, [NonMember] or
    [Inconclusive], unless an exception propagates, which then was raised
    while the siblings were made or is an exception other than a
    [RuntimeError] raised by the isometry test. *)
Theorem identify_bounded `{Snappy} (T : ManifoldTable) (mfld : ref)
    (extends : bool) (w : World) :
  let m := copy (obj w mfld) in
  exists evs,
    trace (snd (identify T mfld extends w)) = (evs ++ trace w)%list
    /\ (randomizations evs <= 100)%nat
    /\ (comparisons evs <= 100 * length (hash_bucket T (mfld_hash m)))%nat
    /\ (all_complete (cusp_info_is_complete m) = false ->
        randomizations evs = 0%nat /\ comparisons evs = 0%nat)
    /\ (fst (identify T mfld extends w) = Ok NonMember
        \/ fst (identify T mfld extends w) = Ok Inconclusive
        \/ (exists N, fst (identify T mfld extends w) = Ok (Match N))
        \/ (exists e,
              fst (identify T mfld extends w) = Raise e
              /\ (fst (candidates T mfld w) = Raise e
                  \/ (is_RuntimeError e = false
                      /\ exists n, isometry_verdict extends m n = Raise e)))).
Proof.
  intros m.
  destruct (candidates_spec T mfld w) as ((evs0 & T0 & R0 & C0) & _ & _ & Hok).
  fold m in Hok.
  assert (Hout :
    fst (identify T mfld extends w) = Ok NonMember
    \/ fst (identify T mfld extends w) = Ok Inconclusive
    \/ (exists N, fst (identify T mfld extends w) = Ok (Match N))
    \/ (exists e,
          fst (identify T mfld extends w) = Raise e
          /\ (fst (candidates T mfld w) = Raise e
              \/ (is_RuntimeError e = false
                  /\ exists n, isometry_verdict extends m n = Raise e)))).
  { destruct (fst (identify T mfld extends w)) as [[N | |] | e] eqn:E; eauto.
    do 3 right. exists e. split; [reflexivity |].
    by apply identify_raises. }
  destruct (candidates T mfld w) as [[[c sibs] | e] w1] eqn:Hcand;
    simpl in T0, Hok.
  - destruct (Hok c sibs eq_refl) as (_ & Hlen & _).
    destruct (identify_verdict T mfld extends w c sibs w1 Hcand)
      as (evs & w' & E & Tr & R & C & Hinc).
    fold m in Hinc. rewrite E in *. simpl.
    exists (evs ++ evs0)%list. rewrite Tr, T0, <- Hlen.
    split; [apply app_assoc |].
    split; [count_events |]. split; [count_events |].
    split; [| exact Hout].
    intros Hm. destruct (Hinc Hm). split; count_events.
  - rewrite identify_candidates, Hcand in *. simpl.
    exists evs0. split; [exact T0 |].
    split; [count_events |]. split; [count_events |].
    split; [| exact Hout]. intros _. split; count_events.
Qed.

(** That the call always ends with one of the three outcomes fails when the
    isometry test raises an exception that is not a [RuntimeError]: in the
    faulty view the test on the first sibling of the query 10 raises a
    [ValueError], which [identify] lets through. *)
Lemma identify_may_raise :
  fst (identify Toy.census_faulty 0%nat true (Toy.world [10]))
  = Raise (OtherError "ValueError" "Manifolds must be non-empty.").
Proof. vm_compute. reflexivity. Qed.

(** The cap is reached: the query 15 of the small census is randomized
    exactly 100 times and compared 200 times before the answer. *)
Lemma identify_uses_all_rounds :
  let w' := snd (identify Toy.census 0%nat false (Toy.world [15])) in
  randomizations (trace w') = 100%nat /\ comparisons (trace w') = 200%nat.
Proof. vm_compute. split; reflexivity. Qed.

(** * Failures of the isometry test *)







(** * The query is left alone *)

(** C9.  [identify] works on a copy: a manifold object that exists before
    the call, the query in particular, has the same state after it, and no
    call that modifies an object (naming, reindexing, filling, randomizing,
    ...) is made on it; the objects that existed before are all unchanged. *)
Theorem identify_private_copy `{Snappy} (T : ManifoldTable) (mfld : ref)
    (extends : bool) (w : World) :
  (mfld < length (objs w))%nat ->
  let w' := snd (identify T mfld extends w) in
  objs w' !! mfld = objs w !! mfld
  /\ take (length (objs w)) (objs w') = objs w
  /\ exists evs,
       trace w' = (evs ++ trace w)%list
       /\ Forall (fun ev => ev_target ev <> Some mfld) evs.
Proof.
  intros Hm w'.
  destruct (sound_identify (length (objs w)) T mfld extends w (le_n _))
    as [[_ Hold (evs & Tr & Hev)] _].
  fold w' in Hold, Tr. rewrite firstn_all in Hold.
  split; [| split; [exact Hold |]].
  - rewrite <- (lookup_take_lt (objs w') (length (objs w)) mfld Hm).
    by rewrite Hold.
  - exists evs. split; [exact Tr |].
    eapply Forall_impl; [exact Hev |]. simpl.
    intros ev [Ht _] Heq. specialize (Ht _ Heq). lia.
Qed.

(** [identify_private_copy] on the small census, for a query that goes
    through the 100 rounds of the fallback. *)
Lemma identify_private_copy_witness :
  let w := Toy.world [15] in
  let w' := snd (identify Toy.census 0%nat false w) in
  objs w' !! 0%nat = objs w !! 0%nat
  /\ take (length (objs w)) (objs w') = objs w
  /\ exists evs,
       trace w' = (evs ++ trace w)%list
       /\ Forall (fun ev => ev_target ev <> Some 0%nat) evs.
Proof.
  refine (identify_private_copy Toy.census 0%nat false (Toy.world [15]) _).
  simpl. lia.
Defined.

(** * Membership *)

Lemma num_tetrahedra_run `{Snappy} N w :
  Manifold_num_tetrahedra N w
  = (num_tetrahedra (obj w N), log [EvNumTetrahedra N] w).
Proof. reflexivity. Qed.

(** C10.  [M in T] never raises.  It is [True] exactly when [identify]
    returns a sibling whose [num_tetrahedra()] returns a positive number;
    it is [False] when [identify] returns [NonMember] or [Inconclusive] and
    when [identify] raises. *)
Theorem contains_never_raises `{Snappy} (T : ManifoldTable) (mfld : ref)
    (w : World) :
  exists b,
    fst (contains T mfld w) = Ok b
    /\ (b = true
        <-> exists N w1 n,
              identify T mfld false w = (Ok (Match N), w1)
              /\ num_tetrahedra (obj w1 N) = Ok n /\ 0 < n)
    /\ (fst (identify T mfld false w) = Ok NonMember -> b = false)
    /\ (fst (identify T mfld false w) = Ok Inconclusive -> b = false)
    /\ (forall e, fst (identify T mfld false w) = Raise e -> b = false).
Proof.
  unfold contains, try_except. rewrite bind_run.
  destruct (identify T mfld false w) as [[[N | |] | e] w1] eqn:E; simpl.
  - rewrite bind_run, num_tetrahedra_run.
    destruct (num_tetrahedra (obj w1 N)) as [n | e] eqn:En; simpl.
    + exists (0 <? n). split; [reflexivity |].
      split; [| repeat split; discriminate].
      rewrite Z.ltb_lt. split.
      * intros Hn. exists N, w1, n. auto.
      * intros (N' & w1' & n' & [= <- <-] & Hn' & Hpos).
        rewrite En in Hn'. by injection Hn' as <-.
    + exists false. split; [reflexivity |].
      split; [| repeat split; discriminate].
      split; [discriminate |].
      intros (N' & w1' & n' & [= <- <-] & Hn' & _).
      rewrite En in Hn'. discriminate.
  - exists false. split; [reflexivity |].
    split; [| repeat split; reflexivity].
    split; [discriminate | intros (N' & w1' & n' & [=] & _)].
  - exists false. split; [reflexivity |].
    split; [| repeat split; reflexivity].
    split; [discriminate | intros (N' & w1' & n' & [=] & _)].
  - exists false. split; [reflexivity |].
    split; [| repeat split; reflexivity].
    split; [discriminate | intros (N' & w1' & n' & [=] & _)].
Qed.

(** * The blob codec *)

Lemma trace_cons_app (e : event) t evs tr :
  t = (evs ++ tr)%list -> e :: t = ((e :: evs) ++ tr)%list.
Proof. intros ->. reflexivity. Qed.

Ltac trace_split :=
  repeat first [exact (eq_refl : _ = ([] ++ _)%list) | apply trace_cons_app].

Ltac no_event :=
  let Hin := fresh "Hin" in
  intros Hin; simpl in Hin;
  repeat (destruct Hin as [Hin | Hin]; [discriminate Hin |]);
  exact Hin.

(** The calls the row factory makes for a blob in binary form. *)
Lemma manifold_factory_events `{Snappy} T row b rest w :
  row_triangulation row = b :: rest ->
  Z.land (byte_to_int b) USE_STRING = 0 ->
  let n := Z.land (byte_to_int b) CUSP_MASK in
  let body := bytes_from (4 * n + 1) (b :: rest) in
  let encoded := bytes_slice 1 (4 * n + 1) (b :: rest) in
  let M := length (objs w) in
  exists evs,
    trace (snd (_manifold_factory T row w)) = (evs ++ trace w)%list
    /\ In (EvFromBytes M body) evs
    /\ (forall s, ~ In (EvFromString M s) evs)
    /\ (Z.land (byte_to_int b) USE_COBS = 0 ->
        forall enc, ~ In (EvSetPeripheralCurves M enc) evs)
    /\ (Z.land (byte_to_int b) USE_COBS <> 0 ->
        forall c, db_decode_matrices encoded = Ok c ->
                  In (EvSetPeripheralCurves M (Some encoded)) evs).
Proof.
  intros Hblob Hstring n body encoded M.
  unfold _manifold_factory. cbv zeta. rewrite Hblob.
  cbv [bytes_head]. unfold bind at 1. unfold lift at 1. cbv beta iota.
  rewrite Hstring. fold n. fold body. fold encoded.
  change (negb (0 =? 0)) with false. cbv iota.
  clearbody body encoded. subst M.
  unfold _finalize, Manifold_new, Manifold_set_DTcode, Manifold_from_bytes,
    Manifold_set_peripheral_curves_combinatorial,
    Manifold_set_peripheral_curves, Manifold_set_name, Manifold_num_cusps,
    Manifold_reindex_cusps, Manifold_dehn_fill.
  destruct (Z.land (byte_to_int b) USE_COBS =? 0) eqn:Hc;
    [apply Z.eqb_eq in Hc | apply Z.eqb_neq in Hc];
    destruct (kind T), (perm_given (row_perm row));
    try destruct (db_decode_matrices encoded) as [c | e];
    cbv [bind ret lift emit update alloc read negb snd fst trace objs rng];
    (eexists; split; [trace_split |]);
    (split; [simpl; tauto |]);
    (split; [intros s; no_event |]);
    (split; [intros Hz enc; first [no_event | contradiction]
            | intros Hz c'; first [contradiction | discriminate
                                  | intros _; simpl; tauto]]).
Qed.

(** C1, as amended.  For a blob whose header [b] has [use_string] clear,
    with [num_cusps = b & 0x3f]: the triangulation body is always
    [blob[1+4*num_cusps:]], in [OneCensusManifold] and in the row factory
    alike.  If [use_cobs] is set, the bytes [blob[1:1+4*num_cusps]] go to the
    matrix decoder and its result is the change of basis.  If [use_cobs] is
    clear nothing is decoded and no change of basis is set, but the
    [4*num_cusps] bytes after the header are skipped all the same: the body
    is [blob[1:]] when [num_cusps = 0]. *)
Theorem blob_body `{Snappy} (row : Row) (b : byte) (rest : list byte) :
  row_triangulation row = b :: rest ->
  Z.land (byte_to_int b) USE_STRING = 0 ->
  let blob := b :: rest in
  let num_cusps := Z.land (byte_to_int b) CUSP_MASK in
  let body := bytes_from (1 + 4 * num_cusps) blob in
  let encoded := bytes_slice 1 (1 + 4 * num_cusps) blob in
  let perm :=
    match perm_given (row_perm row) with
    | Some p => Some (unpack_perm p num_cusps)
    | None => None
    end in
  (Z.land (byte_to_int b) USE_COBS <> 0 ->
   decode_row db_decode_matrices row
   = (let! c := db_decode_matrices encoded in
      Ok {| use_string := 0; cobs := Some c; perm := perm;
            triangulation_data := body |})
   /\ forall T w, exists evs,
        trace (snd (_manifold_factory T row w)) = (evs ++ trace w)%list
        /\ In (EvFromBytes (length (objs w)) body) evs
        /\ (forall c, db_decode_matrices encoded = Ok c ->
              In (EvSetPeripheralCurves (length (objs w)) (Some encoded)) evs))
  /\ (Z.land (byte_to_int b) USE_COBS = 0 ->
      decode_row db_decode_matrices row
      = Ok {| use_string := 0; cobs := None; perm := perm;
              triangulation_data := body |}
      /\ forall T w, exists evs,
           trace (snd (_manifold_factory T row w)) = (evs ++ trace w)%list
           /\ In (EvFromBytes (length (objs w)) body) evs
           /\ forall enc,
                ~ In (EvSetPeripheralCurves (length (objs w)) enc) evs)
  /\ (num_cusps = 0 -> body = bytes_from 1 blob).
Proof.
  intros Hblob Hstring blob num_cusps body encoded perm.
  subst body encoded. rewrite (Z.add_comm 1).
  split; [| split].
  - intros Hc. split.
    + unfold decode_row. rewrite Hblob. cbn [bytes_head bindR].
      rewrite Hstring. fold num_cusps. apply Z.eqb_neq in Hc. rewrite Hc.
      cbn [Z.eqb negb]. fold blob.
      destruct (db_decode_matrices (bytes_slice 1 (4 * num_cusps + 1) blob));
        reflexivity.
    + intros T w.
      destruct (manifold_factory_events T row b rest w Hblob Hstring)
        as (evs & Tr & Hb & _ & _ & Hset).
      exists evs. split; [exact Tr | split; [exact Hb | exact (Hset Hc)]].
  - intros Hc. split.
    + unfold decode_row. rewrite Hblob. cbn [bytes_head bindR].
      rewrite Hstring, Hc. reflexivity.
    + intros T w.
      destruct (manifold_factory_events T row b rest w Hblob Hstring)
        as (evs & Tr & Hb & _ & Hno & _).
      exists evs. split; [exact Tr | split; [exact Hb | exact (Hno Hc)]].
  - intros ->. reflexivity.
Qed.

(** [blob_body] on a blob with a change of basis: header [0x81]
    ([use_cobs] set, one cusp), four bytes for the matrix decoder, and the
    body after them. *)
Lemma blob_body_witness :
  decode_row (db_decode_matrices (Snappy := Toy.snappy))
    (Toy.mkrow 1 "y" [x81; x0a; x0b; x0c; x0d; x05; x06] "odd" 1%Q)
  = Ok {| use_string := 0; cobs := Some [x0a; x0b; x0c; x0d]; perm := None;
          triangulation_data := [x05; x06] |}.
Proof.
  refine (proj1 (proj1 (blob_body (H := Toy.snappy)
                          (Toy.mkrow 1 "y"
                             [x81; x0a; x0b; x0c; x0d; x05; x06] "odd" 1%Q)
                          x81 [x0a; x0b; x0c; x0d; x05; x06]
                          eq_refl eq_refl) _)).
  vm_compute. discriminate.
Defined.

(** That the body is [blob[1:]] whenever [use_cobs] is clear fails for a
    header with a cusp count: for the header byte 1 (both flags clear, one
    cusp) the lookup returns the body [blob[5:]]. *)
Lemma body_skips_cusp_bytes :
  Z.land (byte_to_int x01) USE_STRING = 0
  /\ Z.land (byte_to_int x01) USE_COBS = 0
  /\ OneCensusManifold_call (db_decode_matrices (Snappy := Toy.snappy))
       Toy.connection ["cusped"] "x"
     = Ok {| use_string := 0; cobs := None; perm := None;
             triangulation_data := [x05] |}
  /\ bytes_from 1 [x01; x0a; x0b; x0c; x0d; x05]
     = [x0a; x0b; x0c; x0d; x05].
Proof. vm_compute. repeat split; reflexivity. Qed.

(** * [OneCensusManifold] *)

Section SingleLookup.
Context {Cobs : Type}.
Variable decode_matrices : list byte -> result Cobs.
Variable connection : Connection.


Lemma scan_tables_spec name tables rows0 :
  scan_tables connection name tables rows0
  = match first_table_with connection name tables with
    | Some t =>
        if (1 <? length (fetch_by_name connection t name))%nat
        then Raise (ValueError "Manifold name is ambiguous")
        else Ok (Some (fetch_by_name connection t name))
    | None => Ok (match tables with [] => rows0 | _ => Some [] end)
    end.
Proof.
  unfold first_table_with. revert rows0.
  induction tables as [| t tables IH]; intros rows0; [reflexivity |].
  cbn [scan_tables List.find].
  destruct (fetch_by_name connection t name) as [| r [| r' rows]] eqn:E;
    cbn [length Nat.ltb Nat.leb Nat.eqb negb]; rewrite ?E;
    try reflexivity.
  rewrite IH. destruct (List.find _ tables); [reflexivity |].
  destruct tables; reflexivity.
Qed.

(** With at least one table to look in, the first table that has the name
    decides: two rows there are an ambiguity, one row is decoded (and
    nothing else is done with it), and a name no table has is not found. *)
Lemma single_lookup_spec name tables :
  tables <> [] ->
  OneCensusManifold_call decode_matrices connection tables name
  = match first_table_with connection name tables with
    | Some t =>
        match fetch_by_name connection t name with
        | [row] => decode_row decode_matrices row
        | _ => Raise (ValueError "Manifold name is ambiguous")
        end
    | None => Raise (KeyError ("The manifold " +:+ name +:+ " was not found."))
    end.
Proof.
  intros Hne. unfold OneCensusManifold_call. rewrite scan_tables_spec.
  destruct (first_table_with connection name tables) as [t |] eqn:Ef.
  - apply List.find_some in Ef as [_ Hlen].
    destruct (fetch_by_name connection t name) as [| r [| r' rows]];
      simpl in *; try reflexivity; discriminate.
  - destruct tables; [contradiction | reflexivity].
Qed.

(** C5, the empty list of tables: the local variable [rows] is never bound,
    and the call ends with an [UnboundLocalError], not with the [KeyError]
    of a name that was not found. *)
Lemma single_lookup_no_tables name :
  OneCensusManifold_call decode_matrices connection [] name
  = Raise (UnboundLocalError
             "local variable 'rows' referenced before assignment").
Proof. reflexivity. Qed.

End SingleLookup.

(** * Slices *)

(** The slice is refused for its step exactly when the step is true as a
    condition: a step that is absent, zero or empty passes. *)
Lemma slice_step_refused T start stop step :
  slice_rows T start stop step
  = Raise (IndexError "Slices with steps are not supported.")
  <-> truthy step = true.
Proof.
  unfold slice_rows. destruct (truthy step); [tauto |].
  split; [| discriminate].
  destruct (is_float_or_none start && is_float_or_none stop);
    [discriminate |].
  destruct (is_int_or_none start && is_int_or_none stop); [| discriminate].
  destruct (_filter T); [discriminate |].
  destruct (truthy _); discriminate.
Qed.



(** An ordinal slice is never an error. *)
Lemma ordinal_slice_no_error T start stop :
  is_int_or_none start = true -> is_int_or_none stop = true ->
  exists rows, slice_rows T start stop PNone = Ok rows.
Proof.
  intros Hs Hp. unfold slice_rows. cbn [truthy].
  destruct (is_float_or_none start && is_float_or_none stop); [eauto |].
  rewrite Hs, Hp. cbn [andb].
  destruct (_filter T); [eauto |].
  destruct (truthy _); eauto.
Qed.


Lemma length_run_query_limit rows q n :
  q_limit q = Some n -> 0 <= n ->
  (length (run_query rows q) <= Z.to_nat n)%nat.
Proof.
  intros Hl Hn. unfold run_query. rewrite Hl.
  destruct (n <? 0) eqn:E; [apply Z.ltb_lt in E; lia |].
  rewrite length_take. lia.
Qed.

(** On a filtered table a slice whose resolved stop is positive and not
    beyond its resolved start is empty; on an unfiltered table a slice whose
    resolved bounds are equal and not zero is empty. *)
Lemma ordinal_slice_empty T a b :
  (_filter T <> [] /\ 0 < resolved T b <= resolved T a
   \/ _filter T = [] /\ resolved T b = resolved T a /\ resolved T b <> 0) ->
  slice_rows T (PInt a) (PInt b) PNone = Ok [].
Proof.
  unfold slice_rows, resolved. cbn [truthy is_float_or_none is_int_or_none
    andb int_of].
  replace (negb (a =? 0) && (a <? 0)) with (a <? 0)
    by (destruct (Z.ltb_spec a 0), (Z.eqb_spec a 0); simpl; lia).
  replace (negb (b =? 0) && (b <? 0)) with (b <? 0)
    by (destruct (Z.ltb_spec b 0), (Z.eqb_spec b 0); simpl; lia).
  set (a' := if a <? 0 then _length T + a else a).
  set (b' := if b <? 0 then _length T + b else b).
  assert (Ha : int_of (if a <? 0 then PInt (_length T + a) else PInt a) = a')
    by (subst a'; destruct (a <? 0); reflexivity).
  assert (Hb : int_of (if b <? 0 then PInt (_length T + b) else PInt b) = b')
    by (subst b'; destruct (b <? 0); reflexivity).
  assert (Hta : truthy (if a <? 0 then PInt (_length T + a) else PInt a)
                = negb (a' =? 0))
    by (subst a'; destruct (a <? 0); reflexivity).
  assert (Htb : truthy (if b <? 0 then PInt (_length T + b) else PInt b)
                = negb (b' =? 0))
    by (subst b'; destruct (b <? 0); reflexivity).
  assert (Hna : match (if a <? 0 then PInt (_length T + a) else PInt a) with
                | PNone => 0
                | _ => int_of (if a <? 0 then PInt (_length T + a) else PInt a)
                end = a')
    by (subst a'; destruct (a <? 0); reflexivity).
  intros [(Hf & Hpos & Hle) | (Hf & Heq & Hnz)].
  - destruct (_filter T) as [| c cs] eqn:Ef; [contradiction |].
    rewrite Hta, Htb, Ha, Hb.
    destruct (Z.eqb_spec b' 0); [lia |]. destruct (Z.eqb_spec a' 0); [lia |].
    cbn [negb]. f_equal. unfold after_fetchmany.
    destruct (Z.ltb_spec a' 0); [reflexivity |].
    apply drop_ge.
    etransitivity;
      [apply (length_run_query_limit _ _ b'); [reflexivity | lia] |].
    lia.
  - rewrite Hf, Hna, Htb, Hb.
    destruct (Z.eqb_spec b' 0); [contradiction |]. cbn [negb].
    rewrite Heq, Z.sub_diag. unfold run_query. simpl.
    by rewrite take_0.
Qed.

(** C4, the slice [T[0:0]] and the unfiltered [T[2:1]]: a stop of 0 is taken
    for an absent stop, and a negative row limit is no limit for sqlite, so
    these slices of length 0 and -1 are not empty. *)
Lemma empty_slice_returns_rows :
  slice_rows Toy.census (PInt 0) (PInt 0) PNone = Ok Toy.rows
  /\ slice_rows Toy.census_one_cusp (PInt 0) (PInt 0) PNone = Ok Toy.rows
  /\ slice_rows Toy.census (PInt 2) (PInt 1) PNone = Ok (drop 2 Toy.rows)
  /\ fst (getitem Toy.census (ISlice (PInt 0) (PInt 0) PNone) (Toy.world []))
     = Ok (Many [0; 1; 2]%nat).
Proof. vm_compute. repeat split; reflexivity. Qed.

Lemma filter_andb {A} (p q : A -> bool) l :
  List.filter (fun x => p x && q x) l = List.filter q (List.filter p l).
Proof.
  induction l as [| a l IH]; simpl; [reflexivity |].
  destruct (p a); simpl; [| exact IH].
  destruct (q a); by rewrite IH.
Qed.


(** A volume slice is the rows of the view, in their order, that satisfy
    the filter joined with the bounds as they are written into the query. *)
Lemma volume_slice_rows T start stop :
  is_float_or_none start = true -> is_float_or_none stop = true ->
  slice_rows T start stop PNone
  = Ok (List.filter (eval_conds (_filter T ++ volume_conds T start stop))
          (_connection T (_table T))).
Proof.
  intros Hs Hp. unfold slice_rows, run_query, volume_conds.
  cbn [truthy]. rewrite Hs, Hp. reflexivity.
Qed.




(** C6, the stop 0.0 and a start with seven decimals: [T[:0.0]] returns
    every row, none of which has a volume below 0, because a bound of zero
    is taken for an absent bound; and [T[1.0000004:]] returns the row of
    volume 1, because the bound is written as 1.000000. *)
Lemma volume_slice_breaks_bounds :
  slice_rows Toy.census PNone (PFloat 0) PNone = Ok Toy.rows
  /\ Forall (fun row => ~ (row_volume row < 0)%Q) Toy.rows
  /\ slice_rows Toy.census (PFloat (10000004 # 10000000)) PNone PNone
     = Ok Toy.rows
  /\ Exists (fun row => (row_volume row < 10000004 # 10000000)%Q) Toy.rows.
Proof.
  split; [vm_compute; reflexivity |].
  split; [repeat constructor; unfold Qlt; simpl; lia |].
  split; [vm_compute; reflexivity |].
  apply Exists_cons_hd. unfold Qlt. simpl. lia.
Qed.

(** A slice with the step 0 carries a step, yet [T[0:2:0]] is served like
    [T[0:2]]. *)
Lemma slice_step_zero_accepted :
  slice_rows Toy.census (PInt 0) (PInt 2) (PInt 0) = Ok (take 2 Toy.rows)
  /\ slice_rows Toy.census (PInt 0) (PInt 2) PNone = Ok (take 2 Toy.rows).
Proof. vm_compute. split; reflexivity. Qed.

(** C8, as amended.  A slice whose step is true as a condition (any number
    other than zero, in particular) is refused with the error of
    unsupported steps.  A slice without a step is never refused with that
    error: it is a volume slice when both bounds are floats or absent, an
    ordinal slice, which returns rows, when both are integers or absent, and
    is refused with the error of invalid bounds otherwise. *)
Theorem slice_step_check (T : ManifoldTable) (start stop step : pyval) :
  (truthy step = true ->
   slice_rows T start stop step
   = Raise (IndexError "Slices with steps are not supported."))
  /\ (step = PNone ->
      slice_rows T start stop step
      <> Raise (IndexError "Slices with steps are not supported.")
      /\ (is_float_or_none start && is_float_or_none stop = true ->
          slice_rows T start stop step
          = Ok (List.filter
                  (eval_conds (_filter T ++ volume_conds T start stop))
                  (_connection T (_table T))))
      /\ (is_float_or_none start && is_float_or_none stop = false ->
          is_int_or_none start && is_int_or_none stop = true ->
          exists rows, slice_rows T start stop step = Ok rows)
      /\ (is_float_or_none start && is_float_or_none stop = false ->
          is_int_or_none start && is_int_or_none stop = false ->
          slice_rows T start stop step
          = Raise (IndexError
                     "Use two ints or two floats for start and stop."))).
Proof.
  split.
  - intros Ht. by apply slice_step_refused.
  - intros ->. split; [| split; [| split]].
    + intros Hr. apply slice_step_refused in Hr. discriminate Hr.
    + intros Hf. apply andb_true_iff in Hf as [Hs Hp].
      apply (volume_slice_rows T start stop Hs Hp).
    + intros _ Hi. apply andb_true_iff in Hi as [Hs Hp].
      by apply ordinal_slice_no_error.
    + intros Hf Hi. unfold slice_rows. cbn [truthy]. by rewrite Hf, Hi.
Qed.

(** [slice_step_check] on the small census: [T[0:2:2]] is refused. *)
Lemma slice_step_check_witness :
  slice_rows Toy.census (PInt 0) (PInt 2) (PInt 2)
  = Raise (IndexError "Slices with steps are not supported.").
Proof.
  exact (proj1 (slice_step_check Toy.census (PInt 0) (PInt 2) (PInt 2))
           eq_refl).
Defined.

(** That a slice without a step is always served by the ordinal or the
    volume path fails for bounds of mixed types: [T[1:2.5]] is refused. *)
Lemma mixed_slice_refused :
  slice_rows Toy.census (PInt 1) (PFloat (5 # 2)) PNone
  = Raise (IndexError "Use two ints or two floats for start and stop.").
Proof. reflexivity. Qed.

(** * Cusp permutations *)

Lemma perm_field e n :
  0 <= n ->
  Z.land (Z.shiftr e (Z.shiftl n 2)) 0xf = (e / 16 ^ n) mod 16.
Proof.
  intros Hn. rewrite Z.shiftl_mul_pow2 by lia.
  rewrite Z.shiftr_div_pow2 by lia.
  change 0xf with (Z.ones 4). rewrite Z.land_ones by lia.
  replace (2 ^ (n * 2 ^ 2)) with (16 ^ n); [reflexivity |].
  change 16 with (2 ^ 4). rewrite <- Z.pow_mul_r by lia. f_equal. lia.
Qed.

Lemma unpack_perm_fields e len :
  unpack_perm e (Z.of_nat len)
  = map (fun k => (e / 16 ^ Z.of_nat k) mod 16) (seq 0 len).
Proof.
  unfold unpack_perm, range. rewrite Nat2Z.id, map_map.
  apply map_ext. intros k. apply perm_field. lia.
Qed.

(** What [unpack_perm] returns, whatever the packed integer: one entry for
    each cusp, each a 4-bit number; no entry when the count is not
    positive. *)
Lemma unpack_perm_range (encoded_perm num : Z) :
  length (unpack_perm encoded_perm num) = Z.to_nat num
  /\ Forall (fun p => 0 <= p < 16) (unpack_perm encoded_perm num).
Proof.
  split.
  - unfold unpack_perm, range. by rewrite !length_map, length_seq.
  - unfold unpack_perm, range. rewrite map_map.
    apply List.Forall_forall. intros p Hp.
    apply in_map_iff in Hp as (k & <- & _).
    rewrite perm_field by lia. apply Z.mod_pos_bound. lia.
Qed.

(** Unpacking inverts the packing of 4-bit entries, lowest field first. *)
Theorem unpack_packed_perm (perm : list Z) :
  Forall (fun p => 0 <= p < 16) perm ->
  unpack_perm (packed_perm perm) (Z.of_nat (length perm)) = perm.
Proof.
  rewrite unpack_perm_fields.
  induction 1 as [| p perm Hp _ IH]; [reflexivity |].
  cbn [length seq map packed_perm]. f_equal.
  - change (16 ^ Z.of_nat 0) with 1. rewrite Z.div_1_r.
    rewrite (Z.mul_comm 16), Z_mod_plus_full. by apply Z.mod_small.
  - rewrite <- seq_shift, map_map. rewrite <- IH at 2.
    apply map_ext. intros k.
    rewrite Nat2Z.inj_succ, Z.pow_succ_r by lia.
    rewrite <- Z.div_div by lia. do 2 f_equal.
    rewrite (Z.mul_comm 16), Z.div_add by lia.
    rewrite (Z.div_small p) by lia. lia.
Qed.

Lemma unpack_packed_perm_witness :
  unpack_perm (packed_perm [2; 0; 1]) (Z.of_nat (length [2; 0; 1]))
  = [2; 0; 1].
Proof.
  refine (unpack_packed_perm [2; 0; 1] _).
  repeat constructor; lia.
Defined.

(** * Blobs in string form, empty blobs, and the permutation column *)

Lemma header_fields b :
  (Z.land (byte_to_int b) USE_STRING = 0
   \/ Z.land (byte_to_int b) USE_STRING = 64)
  /\ (Z.land (byte_to_int b) USE_COBS = 0
      \/ Z.land (byte_to_int b) USE_COBS = 128)
  /\ 0 <= Z.land (byte_to_int b) CUSP_MASK <= 63
  /\ byte_to_int b
     = Z.land (byte_to_int b) USE_COBS + Z.land (byte_to_int b) USE_STRING
       + Z.land (byte_to_int b) CUSP_MASK.
Proof. destruct b; vm_compute; intuition discriminate. Qed.

Lemma manifold_factory_string_events `{Snappy} T row b rest w :
  row_triangulation row = b :: rest ->
  Z.land (byte_to_int b) USE_STRING <> 0 ->
  exists evs,
    trace (snd (_manifold_factory T row w)) = (evs ++ trace w)%list
    /\ In (EvFromString (length (objs w)) rest) evs
    /\ (forall body, ~ In (EvFromBytes (length (objs w)) body) evs)
    /\ (forall enc, ~ In (EvSetPeripheralCurves (length (objs w)) enc) evs).
Proof.
  intros Hblob Hstring.
  unfold _manifold_factory. cbv zeta. rewrite Hblob.
  cbv [bytes_head]. unfold bind at 1. unfold lift at 1. cbv beta iota.
  apply Z.eqb_neq in Hstring. rewrite Hstring.
  change (negb false) with true. cbv iota.
  change (bytes_from 1 (b :: rest)) with rest.
  unfold _finalize, Manifold_new, Manifold_set_DTcode, Manifold_from_string,
    Manifold_set_name, Manifold_num_cusps, Manifold_reindex_cusps,
    Manifold_dehn_fill.
  destruct (kind T), (perm_given (row_perm row));
    cbv [bind ret lift emit update alloc read negb snd fst trace objs rng];
    (eexists; split; [trace_split |]);
    (split; [simpl; tauto |]);
    (split; [intros body; no_event | intros enc; no_event]).
Qed.

(** A blob whose header has [use_string] set (bit 6): the payload is the
    rest of the blob after the header byte, whatever the other bits of the
    header say; the matrix decoder is not consulted, and the row factory
    builds the manifold from that text, never from bytes, and sets no
    peripheral curves. *)
Theorem string_blob `{Snappy} {C : Type} (decode : list byte -> result C)
    (row : Row) (b : byte) (rest : list byte) :
  row_triangulation row = b :: rest ->
  Z.land (byte_to_int b) USE_STRING <> 0 ->
  decode_row decode row
  = Ok {| use_string := 64; cobs := None;
          perm := match perm_given (row_perm row) with
                  | Some p =>
                      Some (unpack_perm p (Z.land (byte_to_int b) CUSP_MASK))
                  | None => None
                  end;
          triangulation_data := rest |}
  /\ forall T w, exists evs,
       trace (snd (_manifold_factory T row w)) = (evs ++ trace w)%list
       /\ In (EvFromString (length (objs w)) rest) evs
       /\ (forall body, ~ In (EvFromBytes (length (objs w)) body) evs)
       /\ (forall enc,
             ~ In (EvSetPeripheralCurves (length (objs w)) enc) evs).
Proof.
  intros Hblob Hstring. split.
  - unfold decode_row. rewrite Hblob. cbn [bytes_head bindR].
    destruct (header_fields b) as ([Hs | Hs] & _); [contradiction |].
    rewrite Hs. reflexivity.
  - intros T w.
    exact (manifold_factory_string_events T row b rest w Hblob Hstring).
Qed.

Lemma string_blob_witness :
  decode_row (db_decode_matrices (Snappy := Toy.snappy))
    (Toy.mkrow 1 "s" [xc2; x6d; x30] "odd" 1%Q)
  = Ok {| use_string := 64; cobs := None; perm := None;
          triangulation_data := [x6d; x30] |}.
Proof.
  refine (proj1 (string_blob (H := Toy.snappy) db_decode_matrices
                   (Toy.mkrow 1 "s" [xc2; x6d; x30] "odd" 1%Q)
                   xc2 [x6d; x30] eq_refl _)).
  vm_compute. discriminate.
Defined.

(** An empty blob has no header byte: the lookup and the row factory both
    end with an [IndexError], and the factory has made no object and no
    call by then. *)
Theorem empty_blob `{Snappy} {C : Type} (decode : list byte -> result C)
    (row : Row) :
  row_triangulation row = [] ->
  decode_row decode row = Raise (IndexError "index out of range")
  /\ forall T w,
       _manifold_factory T row w
       = (Raise (IndexError "index out of range"), w).
Proof.
  intros Hblob. split.
  - unfold decode_row. by rewrite Hblob.
  - intros T w. unfold _manifold_factory. cbv zeta. by rewrite Hblob.
Qed.

Lemma empty_blob_witness :
  decode_row (db_decode_matrices (Snappy := Toy.snappy))
    (Toy.mkrow 1 "e" [] "odd" 1%Q)
  = Raise (IndexError "index out of range").
Proof.
  exact (proj1 (empty_blob (H := Toy.snappy) db_decode_matrices
                  (Toy.mkrow 1 "e" [] "odd" 1%Q) eq_refl)).
Defined.

(** A payload the lookup returns is well formed: [use_string] is 0 or 64;
    with [use_string] set there is no change of basis; and the permutation
    is absent exactly when the column is null or zero, and otherwise has one
    4-bit entry for each cusp the header counts, at most 63. *)
Theorem payload_well_formed {C : Type} (decode : list byte -> result C)
    (row : Row) (p : Payload) :
  decode_row decode row = Ok p ->
  (use_string p = 0 \/ use_string p = 64)
  /\ (use_string p = 64 -> cobs p = None)
  /\ (perm p = None <-> row_perm row = None \/ row_perm row = Some 0)
  /\ (forall l, perm p = Some l ->
        (length l <= 63)%nat /\ Forall (fun x => 0 <= x < 16) l
        /\ exists b rest e,
             row_triangulation row = b :: rest /\ row_perm row = Some e
             /\ l = unpack_perm e (Z.land (byte_to_int b) CUSP_MASK)).
Proof.
  unfold decode_row.
  destruct (row_triangulation row) as [| b rest] eqn:Hblob; [discriminate |].
  cbn [bytes_head bindR].
  destruct (header_fields b) as (Hs & _ & Hn & _).
  set (n := Z.land (byte_to_int b) CUSP_MASK) in *.
  assert (Hperm :
    (match perm_given (row_perm row) with
     | Some e => Some (unpack_perm e n)
     | None => None
     end = None <-> row_perm row = None \/ row_perm row = Some 0)
    /\ forall l,
         match perm_given (row_perm row) with
         | Some e => Some (unpack_perm e n)
         | None => None
         end = Some l ->
         (length l <= 63)%nat /\ Forall (fun x => 0 <= x < 16) l
         /\ exists b' rest' e,
              b :: rest = b' :: rest' /\ row_perm row = Some e
              /\ l = unpack_perm e (Z.land (byte_to_int b') CUSP_MASK)).
  { unfold perm_given. destruct (row_perm row) as [e |].
    - destruct (Z.eqb_spec e 0) as [-> | He].
      + split; [tauto | discriminate].
      + split; [split; [discriminate | intros [[=] | [=]]; contradiction] |].
        intros l [= <-]. destruct (unpack_perm_range e n) as [Hl Hr].
        split; [rewrite Hl; lia |]. split; [exact Hr |].
        exists b, rest, e. auto.
    - split; [tauto | discriminate]. }
  destruct Hperm as [Hnone Hsome].
  destruct Hs as [Hs | Hs]; rewrite Hs; cbn [Z.eqb negb].
  - destruct (negb (Z.land (byte_to_int b) USE_COBS =? 0)).
    + destruct (decode _) as [c |]; [| discriminate].
      cbn [bindR fst snd]. intros [= <-]. cbn [use_string cobs perm].
      split; [by left |]. split; [discriminate |]. split; assumption.
    + cbn [bindR fst snd]. intros [= <-]. cbn [use_string cobs perm].
      split; [by left |]. split; [discriminate |]. split; assumption.
  - cbn [bindR fst snd]. intros [= <-]. cbn [use_string cobs perm].
    split; [by right |]. split; [reflexivity |]. split; assumption.
Qed.

Lemma payload_well_formed_witness :
  let row := Toy.mkrow 1 "y" [x81; x0a; x0b; x0c; x0d; x05; x06] "odd" 1%Q in
  let p := {| use_string := 0; cobs := Some [x0a; x0b; x0c; x0d];
              perm := None; triangulation_data := [x05; x06] |} in
  (use_string p = 0 \/ use_string p = 64)
  /\ (use_string p = 64 -> cobs p = None)
  /\ (perm p = None <-> row_perm row = None \/ row_perm row = Some 0)
  /\ (forall l, perm p = Some l ->
        (length l <= 63)%nat /\ Forall (fun x => 0 <= x < 16) l
        /\ exists b rest e,
             row_triangulation row = b :: rest /\ row_perm row = Some e
             /\ l = unpack_perm e (Z.land (byte_to_int b) CUSP_MASK)).
Proof.
  exact (payload_well_formed (db_decode_matrices (Snappy := Toy.snappy))
           (Toy.mkrow 1 "y" [x81; x0a; x0b; x0c; x0d; x05; x06] "odd" 1%Q)
           _ eq_refl).
Defined.

(** * Objects made by the row factory *)

(** A manifold the factory returns is a new object, the only one it made. *)
Lemma manifold_factory_alloc `{Snappy} T row w M w' :
  _manifold_factory T row w = (Ok M, w') ->
  M = length (objs w) /\ length (objs w') = S (length (objs w)).
Proof.
  unfold _manifold_factory. cbv zeta.
  destruct (row_triangulation row) as [| b rest]; [discriminate |].
  cbv [bytes_head]. unfold bind at 1. unfold lift at 1. cbv beta iota.
  unfold _finalize, Manifold_new, Manifold_set_DTcode, Manifold_from_string,
    Manifold_from_bytes, Manifold_set_peripheral_curves_combinatorial,
    Manifold_set_peripheral_curves, Manifold_set_name, Manifold_num_cusps,
    Manifold_reindex_cusps, Manifold_dehn_fill.
  destruct (negb (Z.land (byte_to_int b) USE_STRING =? 0)),
    (negb (Z.land (byte_to_int b) USE_COBS =? 0)),
    (kind T), (perm_given (row_perm row));
    try destruct (db_decode_matrices _) as [c | e];
    cbv [bind ret lift emit update alloc read negb snd fst trace objs rng];
    intros [= <- <-]; cbn [objs];
    (split; [reflexivity |]);
    rewrite ?length_alter, length_app; simpl; lia.
Qed.

(** The manifolds made from a list of rows are new objects with consecutive
    references, one for each row. *)
Lemma mapM_factory_refs `{Snappy} T rows w Ms w' :
  mapM (_manifold_factory T) rows w = (Ok Ms, w') ->
  Ms = seq (length (objs w)) (length rows)
  /\ length (objs w') = (length (objs w) + length rows)%nat.
Proof.
  revert w Ms w'. induction rows as [| row rows IH]; intros w Ms w'.
  - rewrite mapM_nil. intros [= <- <-]. simpl. split; [reflexivity | lia].
  - cbn [mapM]. rewrite bind_run.
    destruct (_manifold_factory T row w) as [[M | e] w1] eqn:Ef;
      [| discriminate].
    apply manifold_factory_alloc in Ef as [-> Hl1].
    rewrite bind_run.
    destruct (mapM (_manifold_factory T) rows w1) as [[Ms1 | e] w2] eqn:Em;
      [| discriminate].
    apply IH in Em as [-> Hl2].
    intros [= <- <-]. cbn [length seq]. rewrite Hl1 in *.
    split; [reflexivity | lia].
Qed.

(** * Ordinal slices that are list slices *)




Lemma gapless_cons r rows s :
  map row_id (r :: rows) = map Z.of_nat (seq s (length (r :: rows))) ->
  row_id r = Z.of_nat s
  /\ map row_id rows = map Z.of_nat (seq (S s) (length rows)).
Proof. cbn [map length seq]. intros [= -> ->]. auto. Qed.




(** * Volume slices *)





(** * Lookup by index and by name *)

Lemma order_by_id_short rows :
  (length rows <= 1)%nat -> order_by_id rows = rows.
Proof. destruct rows as [| r [| r' rows]]; simpl; [auto | auto | lia]. Qed.

Lemma filter_cons_cond c cs rows :
  or_free (c :: cs) = true ->
  List.filter (eval_conds (c :: cs)) rows
  = List.filter (eval_cond c) (List.filter (eval_conds cs) rows).
Proof.
  intros Hfree. rewrite <- filter_andb. apply List.filter_ext. intros r.
  rewrite (eval_conds_cons c cs r Hfree). apply andb_comm.
Qed.

(** What [find] does, when neither the condition nor the filter has a
    top-level [or], with a condition that at most one row of the table
    satisfies, and that it makes at least two objects or fails when more
    rows satisfy it. *)
Lemma find_matching `{Snappy} T c w :
  or_free (c :: _filter T) = true ->
  match List.filter (eval_cond c) (table_rows T) with
  | [] => find T c None w = (Ok [], w)
  | [row] =>
      find T c None w
      = match _manifold_factory T row w with
        | (Ok M, w') => (Ok [M], w')
        | (Raise e, w') => (Raise e, w')
        end
  | _ =>
      forall Ms, fst (find T c None w) = Ok Ms -> (2 <= length Ms)%nat
  end.
Proof.
  intros Hfree.
  unfold find, execute, run_query. cbn [q_where q_order_by_id q_limit].
  rewrite (filter_cons_cond c _ _ Hfree). fold (table_rows T).
  destruct (List.filter (eval_cond c) (table_rows T))
    as [| row [| row' rows]] eqn:E.
  - reflexivity.
  - cbn [order_by_id foldr insert_by_id mapM]. rewrite bind_run.
    destruct (_manifold_factory T row w) as [[M | e] w']; reflexivity.
  - intros Ms HMs. apply mapM_length in HMs.
    rewrite HMs, length_order_by_id. simpl. lia.
Qed.

Lemma getitem_int_cases `{Snappy} (T : ManifoldTable) (i : Z) (w : World) :
  or_free (_filter T) = true ->
  match List.filter (fun r => row_id r =? i + 1) (table_rows T) with
  | [] =>
      getitem T (IKey (PInt i)) w
      = (Raise (IndexError "Manifold index is out of bounds"), w)
  | [row] =>
      getitem T (IKey (PInt i)) w
      = match _manifold_factory T row w with
        | (Ok M, w') => (Ok (Single M), w')
        | (Raise e, w') => (Raise e, w')
        end
  | _ => exists e, fst (getitem T (IKey (PInt i)) w) = Raise e
  end.
Proof.
  intros Hfree.
  pose proof (find_matching T (CIdEq (i + 1)) w Hfree) as Hf.
  change (eval_cond (CIdEq (i + 1))) with (fun r => row_id r =? i + 1) in Hf.
  cbn [getitem]. rewrite bind_run.
  destruct (List.filter (fun r => row_id r =? i + 1) (table_rows T))
    as [| row [| row' rows]].
  - rewrite Hf. reflexivity.
  - rewrite Hf.
    destruct (_manifold_factory T row w) as [[M | e] w']; reflexivity.
  - destruct (find T (CIdEq (i + 1)) None w) as [[Ms | e] w'] eqn:E;
      [| by exists e].
    specialize (Hf Ms eq_refl).
    destruct Ms as [| M [| M' Ms]]; simpl in Hf; try lia;
      eexists; reflexivity.
Qed.

(** [T[i]] for an integer [i], on a table whose filter has no top-level
    [or]: when no row of the table has the id [i+1] the lookup ends with the
    [IndexError] of an index out of bounds, and nothing was made; when
    exactly one row has it, the result is the manifold the factory makes
    from that row (or the factory's exception); when several rows have it,
    no manifold is returned. *)
Theorem getitem_by_index `{Snappy} (T : ManifoldTable) (i : Z) (w : World) :
  or_free (_filter T) = true ->
  match List.filter (fun r => row_id r =? i + 1) (table_rows T) with
  | [] =>
      getitem T (IKey (PInt i)) w
      = (Raise (IndexError "Manifold index is out of bounds"), w)
  | [row] =>
      getitem T (IKey (PInt i)) w
      = match _manifold_factory T row w with
        | (Ok M, w') => (Ok (Single M), w')
        | (Raise e, w') => (Raise e, w')
        end
  | _ => exists e, fst (getitem T (IKey (PInt i)) w) = Raise e
  end.
Proof. exact (getitem_int_cases T i w). Qed.

Lemma getitem_by_index_witness :
  getitem Toy.census_one_cusp (IKey (PInt 3)) (Toy.world [])
  = (Raise (IndexError "Manifold index is out of bounds"), Toy.world []).
Proof.
  exact (getitem_by_index Toy.census_one_cusp 3 (Toy.world []) eq_refl).
Defined.

(** [T[name]] for a name without a single quote (the name is written
    between quotes in the query), on a table whose filter has no top-level
    [or]: the [KeyError] of a manifold that was not
    found when no row of the table has the name; the manifold made from the
    row when exactly one has it; no manifold when several have it. *)
Theorem getitem_by_name `{Snappy} (T : ManifoldTable) (s : string)
    (w : World) :
  sql_plain s = true -> or_free (_filter T) = true ->
  match List.filter (fun r => String.eqb (row_name r) s) (table_rows T) with
  | [] =>
      getitem T (IKey (PStr s)) w
      = (Raise (KeyError ("The manifold " +:+ s +:+ " was not found.")), w)
  | [row] =>
      getitem T (IKey (PStr s)) w
      = match _manifold_factory T row w with
        | (Ok M, w') => (Ok (Single M), w')
        | (Raise e, w') => (Raise e, w')
        end
  | _ => exists e, fst (getitem T (IKey (PStr s)) w) = Raise e
  end.
Proof.
  intros _ Hfree.
  pose proof (find_matching T (CNameEq s) w Hfree) as Hf.
  change (eval_cond (CNameEq s))
    with (fun r => String.eqb (row_name r) s) in Hf.
  cbn [getitem]. rewrite bind_run.
  destruct (List.filter (fun r => String.eqb (row_name r) s) (table_rows T))
    as [| row [| row' rows]].
  - rewrite Hf. reflexivity.
  - rewrite Hf.
    destruct (_manifold_factory T row w) as [[M | e] w']; reflexivity.
  - destruct (find T (CNameEq s) None w) as [[Ms | e] w'] eqn:E;
      [| by exists e].
    specialize (Hf Ms eq_refl).
    destruct Ms as [| M [| M' Ms]]; simpl in Hf; try lia;
      eexists; reflexivity.
Qed.

Lemma filter_id_eq rows s k :
  map row_id rows = map Z.of_nat (seq s (length rows)) ->
  List.filter (fun r => row_id r =? k) rows
  = match rows !! Z.to_nat (k - Z.of_nat s) with
    | Some r => if Z.of_nat s <=? k then [r] else []
    | None => []
    end.
Proof.
  revert s. induction rows as [| r rows IH]; intros s Hg; [reflexivity |].
  apply gapless_cons in Hg as [Hr Hg]. cbn [List.filter].
  rewrite (IH _ Hg), Hr.
  destruct (Z.eqb_spec (Z.of_nat s) k) as [<- | Hne].
  - rewrite Z.sub_diag. cbn [Z.to_nat lookup list_lookup].
    rewrite Z.leb_refl.
    destruct (rows !! _); [| reflexivity].
    destruct (Z.leb_spec (Z.of_nat (S s)) (Z.of_nat s)); [lia | reflexivity].
  - destruct (Z.leb_spec (Z.of_nat s) k).
    + replace (Z.to_nat (k - Z.of_nat s))
        with (S (Z.to_nat (k - Z.of_nat (S s)))) by lia.
      cbn [lookup list_lookup].
      destruct (rows !! _); [| reflexivity].
      destruct (Z.leb_spec (Z.of_nat (S s)) k); [reflexivity | lia].
    + replace (Z.to_nat (k - Z.of_nat s)) with 0%nat by lia.
      cbn [lookup list_lookup].
      destruct (rows !! _); [| reflexivity].
      destruct (Z.leb_spec (Z.of_nat (S s)) k); [lia | reflexivity].
Qed.

Lemma getitem_by_name_witness :
  getitem Toy.census_one_cusp (IKey (PStr "zz")) (Toy.world [])
  = (Raise (KeyError "The manifold zz was not found."), Toy.world []).
Proof.
  exact (getitem_by_name Toy.census_one_cusp "zz" (Toy.world []) eq_refl
           eq_refl).
Defined.

(** On a table without a filter whose ids are 1, 2, ... in storage order:
    [T[i]] for [0 <= i < N] is the manifold made from the row at position
    [i], and for any other integer, a negative one included, it is the
    [IndexError] of an index out of bounds. *)
Theorem getitem_gapless `{Snappy} (T : ManifoldTable) (i : Z) (w : World) :
  _filter T = [] -> gapless (_connection T (_table T)) ->
  (forall row,
     0 <= i -> _connection T (_table T) !! Z.to_nat i = Some row ->
     getitem T (IKey (PInt i)) w
     = match _manifold_factory T row w with
       | (Ok M, w') => (Ok (Single M), w')
       | (Raise e, w') => (Raise e, w')
       end)
  /\ (i < 0 \/ _length T <= i ->
      getitem T (IKey (PInt i)) w
      = (Raise (IndexError "Manifold index is out of bounds"), w)).
Proof.
  intros Hf Hg.
  assert (Hfree : or_free (_filter T) = true) by (by rewrite Hf).
  pose proof (getitem_int_cases T i w Hfree) as Hi.
  assert (Hrows : table_rows T = _connection T (_table T)).
  { unfold table_rows. rewrite Hf. unfold eval_conds. simpl.
    clear. induction (_connection T (_table T)) as [| r l IH];
      simpl; congruence. }
  assert (Hlen : _length T = Z.of_nat (length (_connection T (_table T))))
    by (unfold _length; by rewrite Hrows).
  rewrite Hrows, (filter_id_eq _ 1 (i + 1) Hg) in Hi.
  split.
  - intros row Hpos Hrow.
    replace (Z.to_nat (i + 1 - Z.of_nat 1)) with (Z.to_nat i) in Hi by lia.
    rewrite Hrow in Hi.
    destruct (Z.leb_spec (Z.of_nat 1) (i + 1)); [exact Hi | lia].
  - intros Hout.
    destruct (_connection T (_table T) !! Z.to_nat (i + 1 - Z.of_nat 1))
      as [row |] eqn:Hrow; [| exact Hi].
    destruct (Z.leb_spec (Z.of_nat 1) (i + 1)); [| exact Hi].
    apply lookup_lt_Some in Hrow. lia.
Qed.

Lemma getitem_gapless_witness :
  getitem Toy.census (IKey (PInt (-1))) (Toy.world [])
  = (Raise (IndexError "Manifold index is out of bounds"), Toy.world []).
Proof.
  refine (proj2 (getitem_gapless Toy.census (-1) (Toy.world [])
                   eq_refl eq_refl) _).
  left. lia.
Defined.

(** * What a lookup leaves alone *)

Lemma sound_getitem `{Snappy} n T i :
  sound n true (getitem T i) (fun _ => True).
Proof.
  destruct i as [start stop step | key]; cbn [getitem].
  - eapply sound_bind with (Q := fun _ => True);
      [eapply sound_weaken; [apply sound_lift | intros ? _; exact I] |].
    intros rows _.
    eapply sound_bind; [apply sound_mapM, sound_manifold_factory |].
    intros Ms _. apply sound_ret. exact I.
  - destruct key; try apply sound_raise.
    + eapply sound_bind; [apply sound_execute |]. intros matches _.
      destruct matches as [| M [| M' Ms]];
        first [apply sound_raise | apply sound_ret; exact I].
    + eapply sound_bind; [apply sound_execute |]. intros matches _.
      destruct matches as [| M [| M' Ms]];
        first [apply sound_raise | apply sound_ret; exact I].
Qed.

(** [T[index]], for any index: the objects that existed before the lookup
    keep their state, every modifying call is made on an object created
    during the lookup, and no equality test or randomization is performed;
    a manifold that is returned is a new object, and the manifolds of a
    slice are new objects with consecutive references, hence distinct. *)
Theorem getitem_fresh `{Snappy} (T : ManifoldTable) (i : index) (w : World) :
  let w' := snd (getitem T i w) in
  take (length (objs w)) (objs w') = objs w
  /\ (exists evs,
        trace w' = (evs ++ trace w)%list
        /\ Forall (fun ev =>
                     (forall r, ev_target ev = Some r ->
                                (length (objs w) <= r)%nat)
                     /\ quiet ev) evs)
  /\ (forall M, fst (getitem T i w) = Ok (Single M) -> M = length (objs w))
  /\ (forall Ms, fst (getitem T i w) = Ok (Many Ms) ->
        Ms = seq (length (objs w)) (length Ms)).
Proof.
  intros w'.
  destruct (sound_getitem (length (objs w)) T i w (le_n _))
    as [[_ Hold (evs & Tr & Hev)] _].
  fold w' in Hold, Tr. rewrite firstn_all in Hold.
  split; [exact Hold |]. split.
  { exists evs. split; [exact Tr |].
    eapply Forall_impl; [exact Hev |]. simpl.
    intros ev [Ht Hq]. split; [exact Ht | by apply Hq]. }
  assert (Hfind : forall c Ms,
            fst (find T c None w) = Ok Ms ->
            Ms = seq (length (objs w)) (length Ms)).
  { intros c Ms. unfold find, execute.
    destruct (mapM _ _ w) as [r w1] eqn:E. simpl. intros ->.
    apply mapM_factory_refs in E as [-> _]. by rewrite length_seq. }
  destruct i as [start stop step | key]; cbn [getitem].
  - split.
    + intros M. rewrite bind_run. unfold lift.
      destruct (slice_rows T start stop step); [| discriminate].
      rewrite bind_run. destruct (mapM _ _ w) as [[Ms | e] w1]; discriminate.
    + intros Ms. rewrite bind_run. unfold lift.
      destruct (slice_rows T start stop step) as [rows | e]; [| discriminate].
      rewrite bind_run.
      destruct (mapM _ rows w) as [[Ms1 | e] w1] eqn:E; [| discriminate].
      simpl. intros [= <-].
      apply mapM_factory_refs in E as [-> _]. by rewrite length_seq.
  - destruct key as [| z | ? | s |]; try (split; intros; discriminate).
    + rewrite bind_run. specialize (Hfind (CIdEq (z + 1))).
      destruct (find T (CIdEq (z + 1)) None w) as [[Ms | e] w1];
        [| split; intros; discriminate].
      specialize (Hfind Ms eq_refl).
      destruct Ms as [| M [| M' Ms]]; split; intros; try discriminate.
      simpl in *. congruence.
    + rewrite bind_run. specialize (Hfind (CNameEq s)).
      destruct (find T (CNameEq s) None w) as [[Ms | e] w1];
        [| split; intros; discriminate].
      specialize (Hfind Ms eq_refl).
      destruct Ms as [| M [| M' Ms]]; split; intros; try discriminate.
      simpl in *. congruence.
Qed.

Lemma sound_contains `{Snappy} n T mfld :
  sound n false (contains T mfld) (fun _ => True).
Proof.
  unfold contains. apply sound_try_except; [| apply sound_ret; exact I].
  eapply sound_bind; [apply sound_identify |]. intros M _.
  eapply sound_bind with (Q := fun _ => True).
  - destruct M; [apply sound_Manifold_num_tetrahedra | apply sound_raise
                 | apply sound_raise].
  - intros k _. apply sound_ret. exact I.
Qed.

(** [M in T] leaves the objects that exist alone, [M] in particular: each
    has the state it had, and no modifying call is made on [M], whatever the
    test answers and whatever went wrong inside it. *)
Theorem contains_leaves_objects `{Snappy} (T : ManifoldTable) (mfld : ref)
    (w : World) :
  (mfld < length (objs w))%nat ->
  let w' := snd (contains T mfld w) in
  objs w' !! mfld = objs w !! mfld
  /\ take (length (objs w)) (objs w') = objs w
  /\ exists evs,
       trace w' = (evs ++ trace w)%list
       /\ Forall (fun ev => ev_target ev <> Some mfld) evs.
Proof.
  intros Hm w'.
  destruct (sound_contains (length (objs w)) T mfld w (le_n _))
    as [[_ Hold (evs & Tr & Hev)] _].
  fold w' in Hold, Tr. rewrite firstn_all in Hold.
  split; [| split; [exact Hold |]].
  - rewrite <- (lookup_take_lt (objs w') (length (objs w)) mfld Hm).
    by rewrite Hold.
  - exists evs. split; [exact Tr |].
    eapply Forall_impl; [exact Hev |]. simpl.
    intros ev [Ht _] Heq. specialize (Ht _ Heq). lia.
Qed.

Lemma contains_leaves_objects_witness :
  let w := Toy.world [15] in
  let w' := snd (contains Toy.census 0%nat w) in
  objs w' !! 0%nat = objs w !! 0%nat
  /\ take (length (objs w)) (objs w') = objs w
  /\ exists evs,
       trace w' = (evs ++ trace w)%list
       /\ Forall (fun ev => ev_target ev <> Some 0%nat) evs.
Proof.
  refine (contains_leaves_objects Toy.census 0%nat (Toy.world [15]) _).
  simpl. lia.
Defined.

(** * Iteration and length *)

(** Iterating over a table to the end, when no row fails to decode, yields
    exactly [len(T)] manifolds, new objects with consecutive references;
    and [T[:]] is that same traversal. *)
Theorem iterate_len `{Snappy} (T : ManifoldTable) (w : World) :
  (forall Ms, fst (iterate T w) = Ok Ms ->
     Z.of_nat (length Ms) = _length T
     /\ Ms = seq (length (objs w)) (length Ms))
  /\ getitem T (ISlice PNone PNone PNone) w
     = match iterate T w with
       | (Ok Ms, w') => (Ok (Many Ms), w')
       | (Raise e, w') => (Raise e, w')
       end.
Proof.
  split.
  - intros Ms. unfold iterate, execute, run_query.
    cbn [q_where q_order_by_id q_limit]. fold (table_rows T).
    destruct (mapM _ _ w) as [r w1] eqn:E. simpl. intros ->.
    apply mapM_factory_refs in E as [-> _].
    rewrite !length_seq. split; reflexivity.
  - cbn [getitem slice_rows truthy is_float_or_none andb].
    rewrite !app_nil_r, bind_run. unfold lift, iterate, execute.
    rewrite bind_run.
    destruct (mapM _ _ w) as [[Ms | e] w1]; reflexivity.
Qed.

(** * Keywords of a table *)

Lemma forallb_given {A} (arg : option A) (c : A -> cond) row :
  forallb (fun x => eval_cond x row) (given arg c) = true
  <-> forall a, arg = Some a -> eval_cond (c a) row = true.
Proof.
  destruct arg as [a |]; simpl.
  - rewrite andb_true_r. split; [by intros Ha a' [= <-] | auto].
  - split; [discriminate | reflexivity].
Qed.

Lemma or_free_configure kwargs :
  (forall text, kw_filter kwargs = Some text -> snd text = []) ->
  or_free (_configure kwargs) = true.
Proof.
  intros Htext. unfold _configure.
  destruct (kw_filter kwargs) as [[t ts] |] eqn:E.
  - specialize (Htext _ eq_refl). simpl in Htext. subst ts.
    destruct (kw_betti kwargs), (kw_num_cusps kwargs), (kw_cusps kwargs),
      (kw_num_tets kwargs), (kw_tets kwargs); reflexivity.
  - destruct (kw_betti kwargs), (kw_num_cusps kwargs), (kw_cusps kwargs),
      (kw_num_tets kwargs), (kw_tets kwargs); reflexivity.
Qed.

(** A table configured with keywords, the [filter] text having no top-level
    [or], holds the rows of its view that satisfy every keyword given;
    [num_cusps] and [cusps] (as [num_tets] and [tets]) both apply when both
    are given. *)
Theorem configure_rows (T : ManifoldTable) (kwargs : filter_args)
    (row : Row) :
  _filter T = _configure kwargs ->
  (forall text, kw_filter kwargs = Some text -> snd text = []) ->
  In row (table_rows T)
  <-> In row (_connection T (_table T))
      /\ (forall text, kw_filter kwargs = Some text -> fst text row = true)
      /\ (forall n, kw_betti kwargs = Some n -> row_betti row = n)
      /\ (forall n, kw_num_cusps kwargs = Some n -> row_cusps row = n)
      /\ (forall n, kw_cusps kwargs = Some n -> row_cusps row = n)
      /\ (forall n, kw_num_tets kwargs = Some n -> row_tets row = n)
      /\ (forall n, kw_tets kwargs = Some n -> row_tets row = n).
Proof.
  intros Hfilter Htext. unfold table_rows. rewrite Hfilter.
  rewrite List.filter_In,
    (eval_conds_or_free _ row (or_free_configure kwargs Htext)).
  unfold _configure.
  rewrite !forallb_app, !andb_true_iff, !forallb_given.
  cbn [eval_cond]. setoid_rewrite Z.eqb_eq.
  assert (Hsql :
    (forall text, kw_filter kwargs = Some text ->
       fst text row || existsb (fun p => p row) (snd text) = true)
    <-> (forall text, kw_filter kwargs = Some text -> fst text row = true)).
  { split; intros Hk text Ht; specialize (Hk text Ht);
      rewrite (Htext text Ht) in *; simpl in *.
    - by rewrite orb_false_r in Hk.
    - by rewrite orb_false_r. }
  rewrite Hsql. tauto.
Qed.

Lemma configure_rows_witness :
  In (Toy.mkrow 1 "a" [x00; x0d] "odd" 1%Q)
    (table_rows Toy.census_one_cusp).
Proof.
  refine (proj2 (configure_rows Toy.census_one_cusp
                   {| kw_filter := None; kw_betti := None;
                      kw_num_cusps := None; kw_cusps := Some 1;
                      kw_num_tets := None; kw_tets := None |}
                   (Toy.mkrow 1 "a" [x00; x0d] "odd" 1%Q) eq_refl _) _).
  - discriminate.
  - split; [left; reflexivity |].
    split; [discriminate |]. split; [discriminate |].
    split; [discriminate |]. split; [by intros n [= <-] |].
    split; discriminate.
Defined.

(** * The first hit decides *)

Lemma isometry_hit_first `{Snappy} extends m before N n after :
  Forall (fun c => unconfirmed extends m (snd c) = true) before ->
  isometry_verdict extends m n = Ok true ->
  isometry_hit extends m (before ++ (N, n) :: after)%list = Ok (Some N).
Proof.
  intros Hb Hn. induction Hb as [| [N' n'] before Hc _ IH]; simpl.
  - by rewrite Hn.
  - unfold unconfirmed in Hc. simpl in Hc.
    destruct (isometry_verdict extends m n') as [[] | e];
      [discriminate | exact IH |].
    by rewrite Hc.
Qed.

Lemma Forall_insert_by_id (P : Row -> Prop) r rows :
  P r -> Forall P rows -> Forall P (insert_by_id r rows).
Proof.
  intros Hr. induction 1 as [| x rows Hx Hrows IH]; simpl.
  - by constructor.
  - destruct (row_id r <=? row_id x); repeat constructor; assumption.
Qed.

Lemma sorted_insert_by_id r rows :
  StronglySorted (fun a b => row_id a <= row_id b) rows ->
  StronglySorted (fun a b => row_id a <= row_id b) (insert_by_id r rows).
Proof.
  induction 1 as [| x rows Hs IH Hx]; simpl.
  - repeat constructor.
  - destruct (Z.leb_spec (row_id r) (row_id x)).
    + constructor; [by constructor |].
      constructor; [assumption |].
      eapply Forall_impl; [exact Hx |]. simpl. intros; lia.
    + constructor; [exact IH |].
      apply Forall_insert_by_id; [lia | exact Hx].
Qed.

(** [order by id] puts the rows in the order of their ids. *)
Lemma sorted_order_by_id rows :
  StronglySorted (fun a b => row_id a <= row_id b) (order_by_id rows).
Proof.
  induction rows as [| r rows IH]; simpl; [constructor |].
  by apply sorted_insert_by_id.
Qed.

(** The factory names the manifold it returns after its row. *)
Lemma manifold_factory_named `{Snappy} T row w M w' :
  _manifold_factory T row w = (Ok M, w') ->
  In (EvSetName M (row_name row)) (trace w').
Proof.
  unfold _manifold_factory. cbv zeta.
  destruct (row_triangulation row) as [| b rest]; [discriminate |].
  cbv [bytes_head]. unfold bind at 1. unfold lift at 1. cbv beta iota.
  unfold _finalize, Manifold_new, Manifold_set_DTcode, Manifold_from_string,
    Manifold_from_bytes, Manifold_set_peripheral_curves_combinatorial,
    Manifold_set_peripheral_curves, Manifold_set_name, Manifold_num_cusps,
    Manifold_reindex_cusps, Manifold_dehn_fill.
  destruct (negb (Z.land (byte_to_int b) USE_STRING =? 0)),
    (negb (Z.land (byte_to_int b) USE_COBS =? 0)),
    (kind T), (perm_given (row_perm row));
    try destruct (db_decode_matrices _) as [c | e];
    cbv [bind ret lift emit update alloc read negb snd fst trace objs rng];
    intros [= <- <-]; cbn [trace]; simpl; tauto.
Qed.

(** The manifolds made from a list of rows are named after the rows, one
    after the other. *)
Lemma mapM_factory_named `{Snappy} T rows w Ms w' :
  mapM (_manifold_factory T) rows w = (Ok Ms, w') ->
  Forall2 (fun M row => In (EvSetName M (row_name row)) (trace w')) Ms rows.
Proof.
  revert w Ms w'. induction rows as [| row rows IH]; intros w Ms w'.
  - rewrite mapM_nil. intros [= <- <-]. constructor.
  - cbn [mapM]. rewrite bind_run.
    destruct (_manifold_factory T row w) as [[M | e] w1] eqn:Ef;
      [| discriminate].
    rewrite bind_run.
    destruct (mapM (_manifold_factory T) rows w1) as [[Ms1 | e] w2] eqn:Em;
      [| discriminate].
    intros [= <- <-]. constructor; [| by apply (IH w1)].
    apply manifold_factory_named in Ef.
    destruct (sound_mapM 0 true (_manifold_factory T) _ rows
                (sound_manifold_factory 0 true T) w1 (Nat.le_0_l _))
      as [[_ _ (evs & Tr & _)] _].
    rewrite Em in Tr. cbn [snd] in Tr. rewrite Tr.
    apply in_or_app. by right.
Qed.

(** The siblings are the manifolds made, one after the other, from the rows
    the hash query selects. *)
Lemma candidates_named `{Snappy} T mfld w c sibs w1 :
  candidates T mfld w = (Ok (c, sibs), w1) ->
  Forall2 (fun N row => In (EvSetName N (row_name row)) (trace w1)) sibs
    (hash_bucket T (mfld_hash (copy (obj w mfld)))).
Proof.
  unfold candidates. rewrite bind_run, copy_run.
  set (w0 := {| objs := _; rng := _; trace := _ |}).
  assert (Hobj : obj w0 (length (objs w)) = copy (obj w mfld)).
  { unfold obj at 1. subst w0. simpl. by rewrite list_lookup_middle. }
  unfold siblings. rewrite !bind_run, hash_run, Hobj.
  unfold find, execute.
  fold (hash_bucket T (mfld_hash (copy (obj w mfld)))).
  destruct (mapM _ _ _) as [[Ms | e] w2] eqn:Em; [| discriminate].
  intros [= <- <- <-]. by apply (mapM_factory_named T _ _ _ _ Em).
Qed.

(** The siblings are tested in the order of their ids, and the first that
    the isometry test confirms is returned.  The rows of the hash query come
    in the order of their ids and the siblings are made from them one after
    the other (each is named after its row); and when the siblings before
    [N] are not confirmed (the test answers no, or fails with a
    [RuntimeError]) and [N] is, [identify] returns [N], whatever comes after
    it. *)
Theorem identify_first_confirmed `{Snappy} (T : ManifoldTable) (mfld : ref)
    (extends : bool) (w : World) (c : ref) (sibs : list ref) (w1 : World) :
  candidates T mfld w = (Ok (c, sibs), w1) ->
  let rows := hash_bucket T (mfld_hash (copy (obj w mfld))) in
  StronglySorted (fun r r' => row_id r <= row_id r') rows
  /\ Forall2 (fun N row => In (EvSetName N (row_name row)) (trace w1))
       sibs rows
  /\ forall before N after,
       sibs = (before ++ N :: after)%list ->
       Forall (fun N' =>
                 unconfirmed extends (copy (obj w mfld)) (obj w1 N') = true)
         before ->
       isometry_verdict extends (copy (obj w mfld)) (obj w1 N) = Ok true ->
       fst (identify T mfld extends w) = Ok (Match N).
Proof.
  intros Hcand rows. split; [| split].
  - subst rows. unfold hash_bucket, run_query.
    cbn [q_where q_order_by_id q_limit]. apply sorted_order_by_id.
  - exact (candidates_named T mfld w c sibs w1 Hcand).
  - intros before N after -> Hb HN.
    destruct (identify_verdict T mfld extends w _ _ w1 Hcand)
      as (evs & w' & E & _).
    rewrite E. cbn [fst]. unfold verdict, states.
    rewrite length_map, length_app. cbn [length].
    replace (length before + S (length after) =? 0)%nat with false
      by (symmetry; apply Nat.eqb_neq; lia).
    rewrite map_app. cbn [map].
    rewrite (isometry_hit_first extends _ _ N (obj w1 N));
      [reflexivity | | exact HN].
    apply Forall_map. exact Hb.
Qed.

Lemma identify_first_confirmed_witness :
  fst (identify Toy.census 0%nat false (Toy.world [7])) = Ok (Match 3%nat).
Proof.
  refine (proj2 (proj2 (identify_first_confirmed Toy.census 0%nat false
                          (Toy.world [7]) 1%nat [2; 3]%nat
                          (snd (candidates Toy.census 0%nat (Toy.world [7])))
                          _))
            [2%nat] 3%nat [] eq_refl _ _).
  - vm_compute. reflexivity.
  - constructor; [vm_compute; reflexivity | constructor].
  - vm_compute. reflexivity.
Defined.

(** * The first table with the name decides *)

Lemma scan_tables_first_hit (connection : Connection)
    (name : string) before t after row rows :
  Forall (fun t' => fetch_by_name connection t' name = []) before ->
  fetch_by_name connection t name = [row] ->
  scan_tables connection name (before ++ t :: after)%list rows
  = Ok (Some [row]).
Proof.
  intros Hb Ht. revert rows.
  induction Hb as [| t' before Hc _ IH]; intros rows; simpl.
  - by rewrite Ht.
  - rewrite Hc. simpl. apply IH.
Qed.

(** [OneCensusManifold(tables)(name)], for a name without a single quote:
    when the tables before [t] have no row of that name and [t] has exactly
    one, the result is the decoding of that row; the tables after [t] are
    not looked at, so a name that is ambiguous further on is not noticed. *)
Theorem single_lookup_first_hit {C : Type}
    (decode : list byte -> result C) (connection : Connection)
    (name : string) (before : list string) (t : string)
    (after : list string) (row : Row) :
  sql_plain name = true ->
  Forall (fun t' => fetch_by_name connection t' name = []) before ->
  fetch_by_name connection t name = [row] ->
  OneCensusManifold_call decode connection (before ++ t :: after)%list name
  = decode_row decode row.
Proof.
  intros _ Hb Ht. unfold OneCensusManifold_call.
  by rewrite (scan_tables_first_hit connection name before t after row None
                Hb Ht).
Qed.

Lemma single_lookup_first_hit_witness :
  OneCensusManifold_call (db_decode_matrices (Snappy := Toy.snappy))
    Toy.connection ["none"; "cusped"; "census"] "x"
  = decode_row (db_decode_matrices (Snappy := Toy.snappy))
      (Toy.mkrow 1 "x" [x01; x0a; x0b; x0c; x0d; x05] "odd" 1%Q).
Proof.
  refine (single_lookup_first_hit _ Toy.connection "x" ["none"] "cusped"
            ["census"] _ eq_refl _ eq_refl).
  constructor; [reflexivity | constructor].
Defined.

(** * The bits of a number *)

Lemma mask_bit n i :
  0 <= i -> (Z.land n (Z.shiftl 1 i) =? 0) = negb (Z.testbit n i).
Proof.
  intros Hi. rewrite Z.shiftl_1_l.
  destruct (Z.testbit n i) eqn:Hb; simpl.
  - apply Z.eqb_neq. intros H0.
    assert (Hc : Z.testbit (Z.land n (2 ^ i)) i = true).
    { rewrite Z.land_spec, Hb, Z.pow2_bits_true; auto. }
    rewrite H0, Z.bits_0 in Hc. discriminate.
  - apply Z.eqb_eq, Z.bits_inj'. intros j Hj.
    rewrite Z.land_spec, Z.bits_0, Z.pow2_bits_eqb by lia.
    destruct (Z.eqb_spec i j) as [<- | _];
      [by rewrite Hb | apply andb_false_r].
Qed.

Lemma testbit_above n i j :
  0 <= n < 2 ^ i -> i <= j -> Z.testbit n j = false.
Proof.
  intros Hn Hij.
  destruct (Z.eq_dec n 0) as [-> | Hne]; [apply Z.bits_0 |].
  apply Z.bits_above_log2; [lia |].
  assert (Z.log2 n < i); [| lia].
  apply Z.log2_lt_pow2; lia.
Qed.

Lemma Zseq_S i len : Zseq i (S len) = i :: Zseq (i + 1) len.
Proof.
  unfold Zseq. cbn [seq map]. f_equal; [lia |].
  rewrite <- seq_shift, map_map. apply map_ext. intros j. lia.
Qed.

Lemma Zseq_snoc i len :
  Zseq i (S len) = (Zseq i len ++ [i + Z.of_nat len])%list.
Proof. unfold Zseq. by rewrite seq_S, map_app. Qed.

Lemma range_Zseq k : range k = Zseq 0 (Z.to_nat k).
Proof. reflexivity. Qed.

Lemma filter_above n i len :
  0 <= n < 2 ^ i -> 0 <= i -> List.filter (Z.testbit n) (Zseq i len) = [].
Proof.
  intros Hn Hi. revert i Hn Hi.
  induction len as [| len IH]; intros i Hn Hi; [reflexivity |].
  rewrite Zseq_S. cbn [List.filter].
  rewrite (testbit_above n i i Hn) by lia.
  apply IH; [| lia].
  rewrite Z.pow_add_r by lia. lia.
Qed.

(** The loop from position [i] on: it is left after at most [d + 1] rounds
    when [n < 2 ^ (i + d)], with the positions from [i] on that have a 1
    bit appended. *)
Lemma indexset_loop_run d n i result fuel :
  0 <= n < 2 ^ (i + Z.of_nat d) -> 0 <= i -> (d < fuel)%nat ->
  indexset_loop fuel n i result
  = Some (result ++ List.filter (Z.testbit n) (Zseq i (S d)))%list.
Proof.
  revert i result fuel.
  induction d as [| d IH]; intros i result fuel Hn Hi Hf;
    (destruct fuel as [| fuel]; [lia |]); cbn [indexset_loop];
    rewrite (mask_bit n i Hi), negb_involutive, Z.shiftl_1_l, Zseq_S;
    cbn [List.filter].
  - replace (i + Z.of_nat 0) with i in Hn by lia.
    destruct (Z.ltb_spec n (2 ^ i)); [| lia].
    destruct (Z.testbit n i); [reflexivity | by rewrite app_nil_r].
  - destruct (Z.ltb_spec n (2 ^ i)) as [Hlt | Hge].
    + rewrite (filter_above n (i + 1)); [| | lia].
      * destruct (Z.testbit n i); [reflexivity | by rewrite app_nil_r].
      * rewrite Z.pow_add_r by lia. lia.
    + rewrite IH; [| | lia | lia].
      * destruct (Z.testbit n i); [by rewrite <- app_assoc | reflexivity].
      * replace (i + 1 + Z.of_nat d) with (i + Z.of_nat (S d)) by lia.
        exact Hn.
Qed.

Lemma log2_bound n : 0 <= n -> n < 2 ^ (Z.log2 n + 1).
Proof.
  intros Hn. destruct (Z.eq_dec n 0) as [-> | Hne]; [reflexivity |].
  replace (Z.log2 n + 1) with (Z.succ (Z.log2 n)) by lia.
  apply Z.log2_spec. lia.
Qed.

Lemma indexset_enough n fuel :
  0 <= n -> (Z.to_nat (Z.log2 n) + 2 <= fuel)%nat ->
  indexset fuel n = Some (set_bits n).
Proof.
  intros Hn Hf. pose proof (Z.log2_nonneg n) as Hl.
  pose proof (log2_bound n Hn) as Hb.
  unfold indexset.
  rewrite (indexset_loop_run (Z.to_nat (Z.log2 n) + 1) n 0 [] fuel);
    [| | lia | lia].
  - unfold set_bits. rewrite range_Zseq.
    replace (S (Z.to_nat (Z.log2 n) + 1))
      with (S (Z.to_nat (Z.log2 n + 1))) by lia.
    rewrite Zseq_snoc, List.filter_app. cbn [List.filter].
    rewrite (testbit_above n (Z.log2 n + 1)); [| lia | lia].
    by rewrite app_nil_r.
  - replace (0 + Z.of_nat (Z.to_nat (Z.log2 n) + 1)) with (Z.log2 n + 1)
      by lia.
    lia.
Qed.

Lemma set_bits_In n i :
  0 <= n -> In i (set_bits n) <-> 0 <= i /\ Z.testbit n i = true.
Proof.
  intros Hn. pose proof (Z.log2_nonneg n) as Hl.
  pose proof (log2_bound n Hn) as Hb.
  unfold set_bits, range.
  rewrite List.filter_In, List.in_map_iff. split.
  - intros [(j & <- & _) Hbit]. split; [lia | exact Hbit].
  - intros [Hi Hbit]. split; [| exact Hbit].
    exists (Z.to_nat i). split; [lia |].
    apply List.in_seq.
    assert (i < Z.log2 n + 1); [| lia].
    destruct (Z.lt_ge_cases i (Z.log2 n + 1)) as [| Hge]; [assumption |].
    rewrite (testbit_above n (Z.log2 n + 1) i) in Hbit;
      [discriminate | lia | lia].
Qed.

Lemma indexset_more k fuel n l :
  indexset fuel n = Some l -> indexset (k + fuel) n = Some l.
Proof.
  unfold indexset.
  assert (Hmono : forall f i r l',
            indexset_loop f n i r = Some l' ->
            indexset_loop (S f) n i r = Some l').
  { induction f as [| f IH]; intros i r l'; [discriminate |].
    cbn [indexset_loop].
    destruct (n <? Z.shiftl 1 i); [auto |]. intros H. apply IH in H.
    exact H. }
  induction k as [| k IHk]; intros H; [exact H |].
  cbn [Nat.add]. apply Hmono. auto.
Qed.

(** [indexset(n)] for [n >= 0] returns, after at most [log2 n + 2] rounds,
    the positions of the 1 bits of [n], each once and in increasing
    order. *)
Theorem indexset_bits (n : Z) (fuel : nat) :
  0 <= n -> (Z.to_nat (Z.log2 n) + 2 <= fuel)%nat ->
  exists l,
    indexset fuel n = Some l
    /\ (forall i, In i l <-> 0 <= i /\ Z.testbit n i = true)
    /\ StronglySorted Z.lt l.
Proof.
  intros Hn Hf. exists (set_bits n).
  split; [by apply indexset_enough |].
  split; [intros i; by apply set_bits_In |].
  unfold set_bits, range.
  generalize (Z.to_nat (Z.log2 n + 1)) as k. generalize 0%nat as s.
  intros s k. revert s.
  induction k as [| k IH]; intros s; cbn [seq map List.filter];
    [constructor |].
  destruct (Z.testbit n (Z.of_nat s)); [| apply IH].
  constructor; [apply IH |].
  apply List.Forall_forall. intros x Hx.
  apply List.filter_In in Hx as [Hx _].
  apply List.in_map_iff in Hx as (j & <- & Hj).
  apply List.in_seq in Hj. lia.
Qed.

Lemma indexset_bits_witness :
  exists l,
    indexset 5 11 = Some l
    /\ (forall i, In i l <-> 0 <= i /\ Z.testbit 11 i = true)
    /\ StronglySorted Z.lt l.
Proof. refine (indexset_bits 11 5 _ _); [lia | vm_compute; lia]. Defined.

Lemma bits_value_app l l' :
  bits_value (l ++ l') = bits_value l + bits_value l'.
Proof.
  unfold bits_value. induction l as [| i l IH]; simpl; [reflexivity |].
  rewrite IH. lia.
Qed.

Lemma bits_value_low n (k : nat) :
  0 <= n ->
  bits_value (List.filter (Z.testbit n) (Zseq 0 k)) = n mod 2 ^ Z.of_nat k.
Proof.
  intros Hn. induction k as [| k IH].
  - simpl. by rewrite Z.mod_1_r.
  - rewrite Zseq_snoc, List.filter_app, bits_value_app, IH.
    replace (Z.of_nat (S k)) with (Z.of_nat k + 1) by lia.
    rewrite Z.pow_add_r, Z.pow_1_r by lia.
    rewrite Z.rem_mul_r by lia.
    rewrite <- Z.testbit_spec' by lia.
    cbn [List.filter]. rewrite Z.add_0_l.
    destruct (Z.testbit n (Z.of_nat k)); cbn [bits_value foldr Z.b2z];
      rewrite ?Z.shiftl_1_l; lia.
Qed.

(** [indexset(n)] for [n >= 0] returns, after at most [log2 n + 2] rounds,
    bits that add up to [n]: [sum(1 << i for i in indexset(n)) == n]. *)
Theorem indexset_value (n : Z) (fuel : nat) :
  0 <= n -> (Z.to_nat (Z.log2 n) + 2 <= fuel)%nat ->
  exists l, indexset fuel n = Some l /\ bits_value l = n.
Proof.
  intros Hn Hf. exists (set_bits n).
  split; [by apply indexset_enough |].
  unfold set_bits. rewrite range_Zseq, bits_value_low by exact Hn.
  rewrite Z2Nat.id by (pose proof (Z.log2_nonneg n); lia).
  apply Z.mod_small. split; [exact Hn | by apply log2_bound].
Qed.

Lemma indexset_value_witness :
  exists l, indexset 5 11 = Some l /\ bits_value l = 11.
Proof. refine (indexset_value 11 5 _ _); [lia | vm_compute; lia]. Defined.

(** [indexset(n)] for a negative [n] leaves the loop in its first round:
    the result is [[0]] for an odd [n] and [[]] for an even one, though
    infinitely many bits of [n] are set. *)
Theorem indexset_negative (n : Z) (fuel : nat) :
  n < 0 -> (0 < fuel)%nat ->
  indexset fuel n = Some (if Z.odd n then [0] else []).
Proof.
  intros Hn Hf. destruct fuel as [| fuel]; [lia |].
  unfold indexset. cbn [indexset_loop].
  rewrite (mask_bit n 0) by lia. rewrite negb_involutive, Z.bit0_odd.
  change (Z.shiftl 1 0) with 1.
  destruct (Z.ltb_spec n 1); [| lia].
  destruct (Z.odd n); reflexivity.
Qed.

Lemma indexset_negative_witness : indexset 1 (-6) = Some [].
Proof. refine (indexset_negative (-6) 1 _ _); lia. Defined.

(** * Subsequences by bit masks *)

Lemma list_getitem_nonneg {A} (l : list A) i :
  0 <= i -> list_getitem l i = l !! Z.to_nat i.
Proof.
  intros Hi. unfold list_getitem.
  destruct (Z.ltb_spec i 0); [lia |].
  destruct (Z.ltb_spec i 0); [lia | reflexivity].
Qed.

Lemma subsequence_at_shift {A} (x : A) l idx :
  Forall (fun i => 0 <= i) idx ->
  subsequence_at (x :: l) (map Z.succ idx) = subsequence_at l idx.
Proof.
  induction 1 as [| i idx Hi _ IH]; [reflexivity |].
  cbn [map subsequence_at].
  rewrite !list_getitem_nonneg, IH by lia.
  replace (Z.to_nat (Z.succ i)) with (S (Z.to_nat i)) by lia.
  reflexivity.
Qed.

Lemma subsequence_at_None {A} (l : list A) idx i :
  In i idx -> list_getitem l i = None -> subsequence_at l idx = None.
Proof.
  intros Hin Hi. induction idx as [| j idx IH]; [destruct Hin |].
  cbn [subsequence_at]. destruct Hin as [-> | Hin].
  - by rewrite Hi.
  - destruct (list_getitem l j); [| reflexivity]. by rewrite IH.
Qed.

Lemma filter_map_succ n len :
  List.filter (Z.testbit n) (Zseq 1 len)
  = map Z.succ (List.filter (Z.testbit (Z.div2 n)) (Zseq 0 len)).
Proof.
  unfold Zseq. induction (seq 0 len) as [| j l IH]; [reflexivity |].
  cbn [map List.filter]. rewrite IH, !Z.div2_div, Z.div2_bits by lia.
  replace (Z.succ (0 + Z.of_nat j)) with (1 + Z.of_nat j) by lia.
  destruct (Z.testbit n (1 + Z.of_nat j)); cbn [map];
    [f_equal; lia | reflexivity].
Qed.

Lemma Forall_filter_Zseq n i len :
  0 <= i ->
  Forall (fun j => 0 <= j) (List.filter (Z.testbit n) (Zseq i len)).
Proof.
  intros Hi. apply List.Forall_forall. intros j Hj.
  apply List.filter_In in Hj as [Hj _]. unfold Zseq in Hj.
  apply List.in_map_iff in Hj as (k & <- & _). lia.
Qed.

(** The comprehension over the bits of [n] below the length of the
    segment. *)
Lemma subsequence_at_pick {A} (segment : list A) n :
  subsequence_at segment
    (List.filter (Z.testbit n) (Zseq 0 (length segment)))
  = Some (pick segment n).
Proof.
  revert n. induction segment as [| x segment IH]; intros n; [reflexivity |].
  cbn [length pick]. rewrite Zseq_S. cbn [List.filter].
  change (0 + 1) with 1.
  rewrite filter_map_succ, Z.bit0_odd.
  pose proof (subsequence_at_shift x segment _
                (Forall_filter_Zseq (Z.div2 n) 0 (length segment)
                   (Z.le_refl 0))) as Hs.
  rewrite IH in Hs.
  destruct (Z.odd n); cbn [subsequence_at app]; rewrite ?Hs; reflexivity.
Qed.

Lemma Zseq_app i a b :
  Zseq i (a + b) = (Zseq i a ++ Zseq (i + Z.of_nat a) b)%list.
Proof.
  revert i. induction a as [| a IH]; intros i.
  - simpl. f_equal. lia.
  - cbn [Nat.add]. rewrite !Zseq_S, IH. cbn [app]. do 3 f_equal. lia.
Qed.

Lemma set_bits_below n (k : nat) :
  0 <= n < 2 ^ Z.of_nat k ->
  set_bits n = List.filter (Z.testbit n) (Zseq 0 k).
Proof.
  intros Hn. unfold set_bits. rewrite range_Zseq.
  pose proof (Z.log2_nonneg n) as Hl.
  pose proof (log2_bound n ltac:(lia)) as Hb.
  set (a := Z.to_nat (Z.log2 n + 1)).
  transitivity (List.filter (Z.testbit n) (Zseq 0 (a + k))).
  - rewrite Zseq_app, List.filter_app, (filter_above n (0 + Z.of_nat a));
      [by rewrite app_nil_r | | lia].
    replace (0 + Z.of_nat a) with (Z.log2 n + 1) by lia. lia.
  - rewrite Nat.add_comm, Zseq_app, List.filter_app,
      (filter_above n (0 + Z.of_nat k));
      [by rewrite app_nil_r | | lia].
    replace (0 + Z.of_nat k) with (Z.of_nat k) by lia. lia.
Qed.

(** The inner loop on a segment of length [j], entered with [n <= 2^j]:
    it yields the subsequences for [n], ..., [2^j - 1] and is left with
    [n = 2^j]. *)
Lemma powerset_while_run {A} (segment : list A) k a yielded fuel :
  0 <= a -> a + Z.of_nat k = 2 ^ Z.of_nat (length segment) ->
  (k + length segment + 3 <= fuel)%nat ->
  powerset_while fuel segment a yielded
  = Some (2 ^ Z.of_nat (length segment),
          (yielded ++ map (pick segment) (Zseq a k))%list).
Proof.
  set (j := length segment).
  revert a yielded fuel.
  induction k as [| k IH]; intros a yielded fuel Ha Hk Hf;
    (destruct fuel as [| fuel]; [lia |]); cbn [powerset_while].
  - assert (Hlog : Z.log2 a = Z.of_nat j).
    { replace a with (2 ^ Z.of_nat j) by lia. apply Z.log2_pow2. lia. }
    rewrite (indexset_enough a fuel Ha) by lia.
    rewrite (subsequence_at_None segment (set_bits a) (Z.of_nat j)).
    + simpl. rewrite app_nil_r. do 2 f_equal. lia.
    + apply set_bits_In; [exact Ha |]. split; [lia |].
      replace a with (2 ^ Z.of_nat j) by lia. apply Z.pow2_bits_true. lia.
    + rewrite list_getitem_nonneg by lia. rewrite Nat2Z.id.
      apply lookup_ge_None_2. subst j. lia.
  - assert (Hlt : a < 2 ^ Z.of_nat j) by lia.
    assert (Hlog : Z.log2 a <= Z.of_nat j).
    { destruct (Z.eq_dec a 0) as [-> | Hne]; [simpl; lia |].
      assert (Z.log2 a < Z.of_nat j); [| lia].
      apply Z.log2_lt_pow2; lia. }
    rewrite (indexset_enough a fuel Ha) by lia.
    rewrite (set_bits_below a j) by lia.
    subst j. rewrite subsequence_at_pick.
    rewrite IH by lia.
    rewrite Zseq_S. cbn [map]. by rewrite <- app_assoc.
Qed.

Lemma pick_0 {A} (X : list A) : pick X 0 = [].
Proof. induction X as [| x X IH]; [reflexivity |]. simpl. exact IH. Qed.

Lemma pick_prefix {A} (P R : list A) n :
  0 <= n < 2 ^ Z.of_nat (length P) -> pick (P ++ R) n = pick P n.
Proof.
  revert n. induction P as [| x P IH]; intros n Hn.
  - simpl in Hn. replace n with 0 by lia. apply pick_0.
  - cbn [app pick]. f_equal. apply IH.
    rewrite Z.div2_div. cbn [length] in Hn.
    rewrite Nat2Z.inj_succ, Z.pow_succ_r in Hn by lia.
    split; [apply Z.div_pos; lia | apply Z.div_lt_upper_bound; lia].
Qed.

Lemma pow2_length_mono {A} (P R : list A) :
  2 ^ Z.of_nat (length P) <= 2 ^ Z.of_nat (length (P ++ R)).
Proof. apply Z.pow_le_mono_r; [lia |]. rewrite length_app. lia. Qed.

(** The outer loop with [segment = P] and the elements [R] to come. *)
Lemma powerset_for_run {A} (R P : list A) n yielded fuel :
  0 <= n <= 2 ^ Z.of_nat (S (length P)) ->
  2 ^ Z.of_nat (length (P ++ R)) + Z.of_nat (length (P ++ R)) + 3
    <= Z.of_nat fuel ->
  powerset_for fuel R P n yielded
  = Some (yielded
          ++ match R with
             | [] => []
             | _ => map (pick (P ++ R))
                      (Zseq n (Z.to_nat (2 ^ Z.of_nat (length (P ++ R)) - n)))
             end)%list.
Proof.
  revert P n yielded.
  induction R as [| x R IH]; intros P n yielded Hn Hf;
    cbn [powerset_for]; [by rewrite app_nil_r |].
  set (P' := (P ++ [x])%list).
  assert (HX : (P ++ x :: R = P' ++ R)%list)
    by (subst P'; by rewrite <- app_assoc).
  assert (HP' : length P' = S (length P))
    by (subst P'; rewrite length_app; simpl; lia).
  rewrite HX in *. rewrite <- HP' in Hn. clearbody P'. clear HX HP'.
  pose proof (pow2_length_mono P' R) as Hmono.
  assert (Hlen : (length P' <= length (P' ++ R))%nat)
    by (rewrite length_app; lia).
  rewrite (powerset_while_run P'
             (Z.to_nat (2 ^ Z.of_nat (length P') - n)));
    [| lia | lia | lia].
  rewrite IH; [| rewrite Nat2Z.inj_succ, Z.pow_succ_r; lia | exact Hf].
  rewrite <- app_assoc. do 2 f_equal.
  assert (Hpick :
    map (pick P') (Zseq n (Z.to_nat (2 ^ Z.of_nat (length P') - n)))
    = map (pick (P' ++ R))
        (Zseq n (Z.to_nat (2 ^ Z.of_nat (length P') - n)))).
  { apply map_ext_in. intros m Hm. symmetry. apply pick_prefix.
    unfold Zseq in Hm. apply List.in_map_iff in Hm as (i & <- & Hi).
    apply List.in_seq in Hi. lia. }
  rewrite Hpick. destruct R as [| y R].
  - by rewrite !app_nil_r.
  - rewrite <- map_app. f_equal.
    replace (Z.to_nat (2 ^ Z.of_nat (length (P' ++ y :: R)) - n))
      with (Z.to_nat (2 ^ Z.of_nat (length P') - n)
            + Z.to_nat (2 ^ Z.of_nat (length (P' ++ y :: R))
                        - 2 ^ Z.of_nat (length P')))%nat by lia.
    rewrite Zseq_app. do 2 f_equal. lia.
Qed.

Lemma powerset_run {A} (X : list A) fuel :
  2 ^ Z.of_nat (length X) + Z.of_nat (length X) + 3 <= Z.of_nat fuel ->
  powerset fuel X
  = Some match X with
         | [] => []
         | _ => map (pick X) (range (2 ^ Z.of_nat (length X)))
         end.
Proof.
  intros Hf. unfold powerset.
  rewrite (powerset_for_run X [] 0 [] fuel); [| simpl; lia | exact Hf].
  cbn [app]. rewrite Z.sub_0_r. reflexivity.
Qed.

Lemma pick_sublist {A} (X : list A) n : sublist (pick X n) X.
Proof.
  revert n. induction X as [| x X IH]; intros n; cbn [pick]; [constructor |].
  destruct (Z.odd n); cbn [app]; constructor; apply IH.
Qed.

Lemma sublist_pick {A} (l X : list A) :
  sublist l X ->
  exists n, 0 <= n < 2 ^ Z.of_nat (length X) /\ pick X n = l.
Proof.
  induction 1 as [| x l1 l2 _ (n & Hn & <-) | x l1 l2 _ (n & Hn & <-)].
  - exists 0. split; [simpl; lia | reflexivity].
  - exists (2 * n + 1). cbn [length pick].
    rewrite Nat2Z.inj_succ, Z.pow_succ_r by lia. split; [lia |].
    assert (Hodd : Z.odd (2 * n + 1) = true)
      by (rewrite Z.add_comm, Z.odd_add_mul_2; reflexivity).
    assert (Hdiv : Z.div2 (2 * n + 1) = n)
      by (rewrite Z.div2_div; symmetry; apply (Z.div_unique _ 2 n 1); lia).
    by rewrite Hodd, Hdiv.
  - exists (2 * n). cbn [length pick].
    rewrite Nat2Z.inj_succ, Z.pow_succ_r by lia. split; [lia |].
    assert (Hodd : Z.odd (2 * n) = false)
      by (rewrite Z.odd_mul; reflexivity).
    assert (Hdiv : Z.div2 (2 * n) = n)
      by (rewrite Z.div2_div; symmetry; apply (Z.div_unique _ 2 n 0); lia).
    by rewrite Hodd, Hdiv.
Qed.

Lemma In_range n k : In n (range k) <-> 0 <= n < k.
Proof.
  unfold range. rewrite List.in_map_iff. split.
  - intros (i & <- & Hi). apply List.in_seq in Hi. lia.
  - intros Hn. exists (Z.to_nat n). split; [lia |].
    apply List.in_seq. lia.
Qed.

(** [powerset(X)] read to the end.  For a non-empty [X] it yields [2^len(X)]
    lists, and a list is yielded exactly when it is a subsequence of [X],
    the empty one included; for an empty [X] it yields nothing, not even
    the empty subsequence. *)
Theorem powerset_subsequences {A : Type} (X : list A) (fuel : nat) :
  2 ^ Z.of_nat (length X) + Z.of_nat (length X) + 3 <= Z.of_nat fuel ->
  exists Y,
    powerset fuel X = Some Y
    /\ (X = [] -> Y = [])
    /\ (X <> [] ->
        Z.of_nat (length Y) = 2 ^ Z.of_nat (length X)
        /\ forall l, In l Y <-> sublist l X).
Proof.
  intros Hf. rewrite (powerset_run X fuel Hf).
  eexists. split; [reflexivity |]. split; [by intros -> |].
  intros Hne. destruct X as [| x X]; [contradiction |].
  set (X' := x :: X) in *. split.
  - unfold range. rewrite !length_map, length_seq. lia.
  - intros l. rewrite List.in_map_iff. split.
    + intros (n & <- & _). apply pick_sublist.
    + intros Hl. destruct (sublist_pick l X' Hl) as (n & Hn & <-).
      exists n. split; [reflexivity | by apply In_range].
Qed.

Lemma powerset_subsequences_witness :
  exists Y,
    powerset 9 [5; 7] = Some Y
    /\ ([5; 7] = [] -> Y = [])
    /\ ([5; 7] <> [] ->
        Z.of_nat (length Y) = 2 ^ Z.of_nat (length [5; 7])
        /\ forall l, In l Y <-> sublist l [5; 7]).
Proof.
  refine (powerset_subsequences [5; 7] 9 _). vm_compute. discriminate.
Defined.

(** [powerset] works on the fly: the lists it yields for the first elements
    of [X] come first, in the same order, whatever follows them. *)
Theorem powerset_prefix {A : Type} (X R : list A) (fuel : nat) :
  2 ^ Z.of_nat (length (X ++ R)) + Z.of_nat (length (X ++ R)) + 3
    <= Z.of_nat fuel ->
  exists Y Z,
    powerset fuel X = Some Y /\ powerset fuel (X ++ R) = Some (Y ++ Z)%list.
Proof.
  intros Hf. pose proof (pow2_length_mono X R) as Hmono.
  assert (Hlen : (length X <= length (X ++ R))%nat)
    by (rewrite length_app; lia).
  rewrite (powerset_run X fuel) by lia.
  rewrite (powerset_run (X ++ R) fuel Hf).
  destruct X as [| x X]; [eexists [], _; split; reflexivity |].
  set (X' := x :: X) in *.
  exists (map (pick X') (range (2 ^ Z.of_nat (length X')))),
    (map (pick (X' ++ R))
       (Zseq (2 ^ Z.of_nat (length X'))
          (Z.to_nat (2 ^ Z.of_nat (length (X' ++ R))
                     - 2 ^ Z.of_nat (length X'))))).
  split; [reflexivity |].
  change ((x :: X) ++ R)%list with (x :: (X ++ R))%list.
  change (x :: (X ++ R))%list with (X' ++ R)%list.
  f_equal.
  replace (map (pick X') (range (2 ^ Z.of_nat (length X'))))
    with (map (pick (X' ++ R)) (range (2 ^ Z.of_nat (length X')))).
  - rewrite <- map_app. f_equal. rewrite !range_Zseq.
    replace (Z.to_nat (2 ^ Z.of_nat (length (X' ++ R))))
      with (Z.to_nat (2 ^ Z.of_nat (length X'))
            + Z.to_nat (2 ^ Z.of_nat (length (X' ++ R))
                        - 2 ^ Z.of_nat (length X')))%nat by lia.
    rewrite Zseq_app. do 2 f_equal. lia.
  - apply map_ext_in. intros n Hn. apply In_range in Hn.
    by apply pick_prefix.
Qed.

Lemma powerset_prefix_witness :
  exists Y Z,
    powerset 14 [5] = Some Y
    /\ powerset 14 ([5] ++ [7; 9]) = Some (Y ++ Z)%list.
Proof.
  refine (powerset_prefix [5] [7; 9] 14 _). vm_compute. discriminate.
Defined.
